(** * Hillslope diffusion, uplift and water-table model of the notebooks

    Shallow embedding of the xarray-simlab processes [Topography], [Erosion],
    [Geom], [Uplift], [Precipitation] and of the helpers [integrate] and
    [computeHydro].

    Numbers.  The notebooks compute on numpy float64 arrays.  The processes
    are modelled on exact reals ([R]): a finite number is a real, and rounding,
    overflow and signed zeros are left out.  The theorems on this model are
    kept to conclusions that are the code's own expressions, operation by
    operation, or that hold under rounding as well; none relies on the value
    of a division by zero.  The one operation of the code that leaves the
    finite numbers on finite arguments, [np.sqrt] of a negative number, is
    modelled as numpy does it: it yields NaN and raises nothing, and NaN then
    propagates through arithmetic and makes every comparison false
    ([float64] below).  [computeHydro] has a second model on IEEE binary64
    numbers (module [F64]), on which the effect of rounding is run.

    Exceptions.  Python exceptions are the [Raise] outcomes of [result]. *)

From Stdlib Require Import Floats.
From Stdlib Require Import Reals Lra Lia List ZArith Bool PeanoNat.
Import ListNotations.

Set Implicit Arguments.

(** ** Python outcomes *)

Inductive exn : Set :=
| IndexError
| ValueError
| ZeroDivisionError.

Inductive result (A : Type) : Type :=
| Ok (a : A)
| Raise (e : exn).

Arguments Ok {A} a.
Arguments Raise {A} e.

Definition bind {A B : Type} (m : result A) (k : A -> result B) : result B :=
  match m with
  | Ok a => k a
  | Raise e => Raise e
  end.

Notation "x <- m ;; k" := (bind m (fun x => k))
  (at level 61, m at next level, right associativity).

(** [for x in xs: s = body(x, s)], stopping at the first exception. *)
Fixpoint for_in {A S : Type} (xs : list A) (body : A -> S -> result S) (s : S)
  : result S :=
  match xs with
  | [] => Ok s
  | x :: xs' => s' <- body x s ;; for_in xs' body s'
  end.

(** [range(lo, hi)] and [range(hi, lo, -1)] on non-negative bounds. *)
Definition range (lo hi : nat) : list nat := seq lo (hi - lo).
Definition range_down (hi lo : nat) : list nat := rev (seq (S lo) (hi - lo)).

(** ** One-dimensional numpy arrays *)

Module Np.

Section Items.
Context {A : Type}.

(** [a[i]] for an index [i >= 0]. *)
Definition item (a : list A) (i : nat) : result A :=
  match nth_error a i with
  | Some v => Ok v
  | None => Raise IndexError
  end.

Fixpoint update (a : list A) (i : nat) (v : A) : list A :=
  match a, i with
  | [], _ => []
  | _ :: a', O => v :: a'
  | x :: a', S i' => x :: update a' i' v
  end.

(** [a[i] = v] for an index [i >= 0]. *)
Definition set_item (a : list A) (i : nat) (v : A) : result (list A) :=
  if (i <? length a)%nat then Ok (update a i v) else Raise IndexError.

(** Python's index normalisation: an index is legal when [-len <= i < len]. *)
Definition norm_index (n : nat) (i : Z) : result nat :=
  if ((0 <=? i) && (i <? Z.of_nat n))%Z%bool then Ok (Z.to_nat i)
  else if ((- Z.of_nat n <=? i) && (i <? 0))%Z%bool
       then Ok (Z.to_nat (Z.of_nat n + i))
       else Raise IndexError.

(** [a[i]] and [a[i] = v] for any integer index. *)
Definition getitem (a : list A) (i : Z) : result A :=
  k <- norm_index (length a) i ;; item a k.

Definition setitem (a : list A) (i : Z) (v : A) : result (list A) :=
  k <- norm_index (length a) i ;; set_item a k v.

(** The slices the code takes: [a[:-2]], [a[1:-1]], [a[2:]]. *)
Definition slice_to_m2 (a : list A) : list A := firstn (length a - 2) a.

Definition slice_1_m1 (a : list A) : list A :=
  firstn (length a - 2) (skipn 1 a).

Definition slice_2 (a : list A) : list A := skipn 2 a.

(** [a[1:-1] = v]: [v] must have the shape of the slice or a single element,
    which is then repeated. *)
Definition set_slice_1_m1 (a v : list A) : result (list A) :=
  let m := length (slice_1_m1 a) in
  v' <- (if (length v =? m)%nat then Ok v
         else match v with
              | [x] => Ok (repeat x m)
              | _ => Raise ValueError
              end) ;;
  Ok (firstn 1 a ++ v' ++ skipn (1 + m) a).

End Items.

Definition array := list R.

(** A variable declared with [dims=[(), 'x']], and the value of a Python
    expression that is a number or an array. *)
Inductive field : Type :=
| Scalar (r : R)
| PerNode (a : array).

(** [np.broadcast_to(f, n).flatten()]. *)
Definition broadcast_to (f : field) (n : Z) : result array :=
  if (n <? 0)%Z then Raise ValueError
  else
    match f with
    | Scalar r => Ok (repeat r (Z.to_nat n))
    | PerNode a =>
        if (length a =? Z.to_nat n)%nat then Ok a
        else match a with
             | [r] => Ok (repeat r (Z.to_nat n))
             | _ => Raise ValueError
             end
    end.

Definition zeros_like (a : array) : array := repeat 0%R (length a).

(** Elementwise operation on two arrays of one shape. *)
Fixpoint map2 (f : R -> R -> R) (a b : array) : array :=
  match a, b with
  | x :: a', y :: b' => f x y :: map2 f a' b'
  | _, _ => []
  end.

(** Elementwise operation with numpy's broadcasting rule for one dimension. *)
Definition broadcast2 (f : R -> R -> R) (a b : array) : result array :=
  if (length a =? length b)%nat then Ok (map2 f a b)
  else match a, b with
       | [x], _ => Ok (map (f x) b)
       | _, [y] => Ok (map (fun x => f x y) a)
       | _, _ => Raise ValueError
       end.

(** [x + a] and [a + y] where [a] is an array. *)
Definition ladd (x : field) (a : array) : result array :=
  match x with
  | Scalar r => Ok (map (Rplus r) a)
  | PerNode u => broadcast2 Rplus u a
  end.

Definition radd (a : array) (y : field) : result array :=
  match y with
  | Scalar r => Ok (map (fun v => v + r)%R a)
  | PerNode u => broadcast2 Rplus a u
  end.

(** Python's [sum(ds)] over arrays: [0 + ds[0] + ds[1] + ...]. *)
Definition sum (ds : list array) : result field :=
  for_in ds (fun d acc => r <- ladd acc d ;; Ok (PerNode r)) (Scalar 0%R).

Definition arange (n : nat) : array := map INR (seq 0 n).

(** [np.linspace(start, stop, num)] (numpy, endpoint included): a negative
    [num] raises ValueError; otherwise sample [k] is [start + k * step] with
    [step = (stop - start) / (num - 1)], and the last of two or more samples is
    set to [stop]. *)
Definition linspace (start stop : R) (num : Z) : result array :=
  if (num <? 0)%Z then Raise ValueError
  else
    let div := (num - 1)%Z in
    let delta := (stop - start)%R in
    let y := arange (Z.to_nat num) in
    let y := if (0 <? div)%Z
             then map (fun k => k * (delta / IZR div))%R y
             else map (fun k => k * delta)%R y in
    let y := map (fun v => v + start)%R y in
    if (1 <? num)%Z then setitem y (-1) stop else Ok y.

(** A float64 that may be NaN. *)
Inductive float64 : Type :=
| Fin (r : R)
| NaN.

Definition f_add (x y : float64) : float64 :=
  match x, y with
  | Fin a, Fin b => Fin (a + b)
  | _, _ => NaN
  end.

Definition f_sub (x y : float64) : float64 :=
  match x, y with
  | Fin a, Fin b => Fin (a - b)
  | _, _ => NaN
  end.

Definition f_mul (x y : float64) : float64 :=
  match x, y with
  | Fin a, Fin b => Fin (a * b)
  | _, _ => NaN
  end.

Definition f_div (x y : float64) : float64 :=
  match x, y with
  | Fin a, Fin b => Fin (a / b)
  | _, _ => NaN
  end.

(** [np.sqrt]: NaN (and a warning, no exception) below zero. *)
Definition f_sqrt (x : float64) : float64 :=
  match x with
  | Fin a => if Rlt_dec a 0 then NaN else Fin (sqrt a)
  | NaN => NaN
  end.

(** [x > y] and [x < y]: false as soon as one side is NaN. *)
Definition f_gt (x y : float64) : bool :=
  match x, y with
  | Fin a, Fin b => if Rgt_dec a b then true else false
  | _, _ => false
  end.

Definition f_lt (x y : float64) : bool :=
  match x, y with
  | Fin a, Fin b => if Rlt_dec a b then true else false
  | _, _ => false
  end.

End Np.

Open Scope R_scope.

(** ** Notebook 08-hydrology: the processes *)

Module Topography.

Record t : Type := mk {
  elevation : Np.array;
  dtopo : list Np.array   (* xs.group('dtopo'): every member's current value *)
}.

(** [
    self.elevation = self.elevation + sum(self.dtopo)
    self.elevation[-1] = self.elevation[-2]
    ] *)
Definition run_step (self : t) : result t :=
  total <- Np.sum (dtopo self) ;;
  e <- Np.radd (elevation self) total ;;
  v <- Np.getitem e (-2) ;;
  e <- Np.setitem e (-1) v ;;
  Ok (mk e (dtopo self)).

End Topography.

Module Erosion.

Record t : Type := mk {
  kd : Np.field;
  surface : Np.array;     (* foreign: Topography.elevation *)
  L : R;
  dx : R;
  dtopo : Np.array
}.

(** [
    self.dx = self.L/(len(self.surface) - 1)
    self.dtopo = np.zeros_like(self.surface)
    ]
    [dx] and [dtopo] are outputs: before [initialize] the process holds its
    inputs only.  [L] is the Python float the driver passes in and
    [len(self.surface) - 1] a Python integer: on a surface of one node the
    division raises ZeroDivisionError. *)
Definition initialize (kd : Np.field) (surface : Np.array) (L : R) : result t :=
  let n1 := (Z.of_nat (length surface) - 1)%Z in
  if (n1 =? 0)%Z then Raise ZeroDivisionError
  else Ok (mk kd surface L (L / IZR n1) (Np.zeros_like surface)).

(** The right-hand side of the interior update, on whole slices:
    [
    dt/self.dx**2/2
      *((self.surface[:-2] - self.surface[1:-1])*(kd_var[:-2]+kd_var[1:-1])
       -(self.surface[1:-1] - self.surface[2:])*(kd_var[1:-1]+kd_var[2:]))
    ] *)
Definition interior (dt dx : R) (s kd_var : Np.array) : Np.array :=
  map (Rmult (dt / dx ^ 2 / 2))
    (Np.map2 Rminus
       (Np.map2 Rmult
          (Np.map2 Rminus (Np.slice_to_m2 s) (Np.slice_1_m1 s))
          (Np.map2 Rplus (Np.slice_to_m2 kd_var) (Np.slice_1_m1 kd_var)))
       (Np.map2 Rmult
          (Np.map2 Rminus (Np.slice_1_m1 s) (Np.slice_2 s))
          (Np.map2 Rplus (Np.slice_1_m1 kd_var) (Np.slice_2 kd_var)))).

(** [
    kd_var = np.broadcast_to(self.kd, self.surface.shape).flatten()
    self.dtopo[1:-1] = <interior>
    self.dtopo[0] = 0
    self.dtopo[-1] = self.dtopo[-2]
    ] *)
Definition run_step (self : t) (dt : R) : result t :=
  kd_var <- Np.broadcast_to (kd self) (Z.of_nat (length (surface self))) ;;
  d <- Np.set_slice_1_m1 (dtopo self)
         (interior dt (dx self) (surface self) kd_var) ;;
  d <- Np.setitem d 0 0 ;;
  v <- Np.getitem d (-2) ;;
  d <- Np.setitem d (-1) v ;;
  Ok (mk (kd self) (surface self) (L self) (dx self) d).

End Erosion.

Module Geom.

Record t : Type := mk {
  length : R;
  slope : R;
  nx : Z
}.

(** What the process writes: [L] into Erosion, [z] into Topography. *)
Record out : Type := mk_out {
  L : R;
  z : Np.array
}.

(** [
    self.L = self.length
    self.z = np.linspace(0, self.length, self.nx)
    ] *)
Definition initialize (self : t) : result out :=
  let L := length self in
  z <- Np.linspace 0 (length self) (nx self) ;;
  Ok (mk_out L z).

End Geom.

Module Uplift.

Record t : Type := mk {
  rate : Np.field;
  dtopo : Np.array;
  nx : Z                  (* foreign: Geom.nx *)
}.

(** [
    u_var = np.broadcast_to(self.rate, self.nx).flatten()
    self.dtopo = dt*u_var
    self.dtopo[0] = 0
    ] *)
Definition run_step (self : t) (dt : R) : result t :=
  u_var <- Np.broadcast_to (rate self) (nx self) ;;
  let d := map (Rmult dt) u_var in
  d <- Np.setitem d 0 0 ;;
  Ok (mk (rate self) d (nx self)).

End Uplift.

(** [
    integ = x.copy()
    for i in range(len(integ) - 1, 0, -1):
        integ[i - 1] = integ[i - 1] + integ[i]
    return integ
    ] *)
Definition integrate_body (i : nat) (integ : Np.array) : result Np.array :=
  a <- Np.item integ (i - 1) ;;
  b <- Np.item integ i ;;
  Np.set_item integ (i - 1) (a + b).

Definition integrate (x : Np.array) : result Np.array :=
  let integ := x in
  for_in (range_down (length integ - 1) 0) integrate_body integ.

Module Precipitation.

Record t : Type := mk {
  rate : Np.field;
  integrated : Np.array;
  dx : R;                 (* foreign: Erosion.dx *)
  nx : Z                  (* foreign: Geom.nx *)
}.

(** [
    _rate = np.broadcast_to(self.rate, self.nx).flatten()*self.dx
    self.integrated = integrate(_rate)
    ] *)
Definition run_step (self : t) : result t :=
  r <- Np.broadcast_to (rate self) (nx self) ;;
  let _rate := map (fun v => v * dx self) r in
  integ <- integrate _rate ;;
  Ok (mk (rate self) integ (dx self) (nx self)).

End Precipitation.

(** ** [computeHydro]

    The inputs [B], [z], [accum], [dx], [K] hold finite numbers; [H] may come
    to hold NaN. *)

(** [(z[i] + z[i - 1] - B[i] - B[i - 1] - H[i - 1]) * H[i - 1]
     - 2 * dx * accum[i] / K] *)
Definition hydro_c (zi zp Bi Bp ai dx K : R) (Hp : Np.float64) : Np.float64 :=
  Np.f_sub (Np.f_mul (Np.f_sub (Np.Fin (zi + zp - Bi - Bp)) Hp) Hp)
           (Np.Fin (2 * dx * ai / K)).

(** [b ** 2 - 4 * c] *)
Definition discriminant (b : R) (c : Np.float64) : Np.float64 :=
  Np.f_sub (Np.Fin (b ^ 2)) (Np.f_mul (Np.Fin 4) c).

(** One pass of the loop body:
    [
    b = -z[i] - z[i - 1] + B[i] + B[i - 1]
    c = (z[i] + z[i - 1] - B[i] - B[i - 1] - H[i - 1]) * H[i - 1]
        - 2 * dx * accum[i] / K
    H[i] = (-b + np.sqrt(b ** 2 - 4 * c)) / 2
    if H[i] > z[i]:
        H[i] = z[i]
    if H[i] < z[i] - B[i]:
        H[i] = z[i] - B[i]
    ] *)
Definition hydro_body (B z accum : Np.array) (dx K : R)
  (i : nat) (H : list Np.float64) : result (list Np.float64) :=
  zi <- Np.item z i ;;
  zp <- Np.item z (i - 1) ;;
  Bi <- Np.item B i ;;
  Bp <- Np.item B (i - 1) ;;
  let b := - zi - zp + Bi + Bp in
  Hp <- Np.item H (i - 1) ;;
  ai <- Np.item accum i ;;
  let c := hydro_c zi zp Bi Bp ai dx K Hp in
  H <- Np.set_item H i
         (Np.f_div (Np.f_add (Np.Fin (- b)) (Np.f_sqrt (discriminant b c)))
                   (Np.Fin 2)) ;;
  Hi <- Np.item H i ;;
  H <- (if Np.f_gt Hi (Np.Fin zi) then Np.set_item H i (Np.Fin zi)
        else Ok H) ;;
  Hi <- Np.item H i ;;
  if Np.f_lt Hi (Np.Fin (zi - Bi)) then Np.set_item H i (Np.Fin (zi - Bi))
  else Ok H.

(** [
    H = z.copy()
    for i in range(1, len(H)):
        <body>
    return H
    ] *)
Definition computeHydro (B z accum : Np.array) (dx K : R)
  : result (list Np.float64) :=
  let H := map Np.Fin z in
  for_in (range 1 (length H)) (hydro_body B z accum dx K) H.

(** ** [computeHydro] on binary64 numbers

    The same function on IEEE binary64 floats, operation by operation and in
    the order Python evaluates them, to run the code on concrete arrays with
    its rounding: [np.sqrt] is the correctly rounded square root, NaN below
    zero; [b ** 2] is taken as the correctly rounded square [b * b]; the
    integer literals 2 and 4 convert exactly. *)

Module F64.

Definition hydro_body (B z accum : list float) (dx K : float)
  (i : nat) (H : list float) : result (list float) :=
  zi <- Np.item z i ;;
  zp <- Np.item z (i - 1) ;;
  Bi <- Np.item B i ;;
  Bp <- Np.item B (i - 1) ;;
  let b := (- zi - zp + Bi + Bp)%float in
  Hp <- Np.item H (i - 1) ;;
  ai <- Np.item accum i ;;
  let c := ((zi + zp - Bi - Bp - Hp) * Hp - 2 * dx * ai / K)%float in
  H <- Np.set_item H i ((- b + PrimFloat.sqrt (b * b - 4 * c)) / 2)%float ;;
  Hi <- Np.item H i ;;
  H <- (if (zi <? Hi)%float then Np.set_item H i zi else Ok H) ;;
  Hi <- Np.item H i ;;
  if (Hi <? zi - Bi)%float then Np.set_item H i (zi - Bi)%float else Ok H.

Definition computeHydro (B z accum : list float) (dx K : float)
  : result (list float) :=
  let H := z in
  for_in (range 1 (length H)) (hydro_body B z accum dx K) H.

(** [z[i] - B[i] <= H[i] <= z[i]], as Python compares floats. *)
Definition within_bounds (zi Bi h : float) : bool :=
  ((zi - Bi <=? h) && (h <=? zi))%float.

End F64.

(** The driver's initialization of the grid: [Geom.initialize] writes [L] and
    the elevation, then [Erosion.initialize] derives [dx] from them. *)
Definition initialize_grid (g : Geom.t) (kd : Np.field) : result Erosion.t :=
  o <- Geom.initialize g ;;
  Erosion.initialize kd (Geom.z o) (Geom.L o).

(** The value the loop body of [computeHydro] leaves at node [i], from the
    inputs at [i] and [i - 1] and the height [Hp] already stored at [i - 1]. *)
Definition hydro_root (zi zp Bi Bp ai dx K : R) (Hp : Np.float64)
  : Np.float64 :=
  let b := - zi - zp + Bi + Bp in
  Np.f_div
    (Np.f_add (Np.Fin (- b))
              (Np.f_sqrt (discriminant b (hydro_c zi zp Bi Bp ai dx K Hp))))
    (Np.Fin 2).

Definition clamp (zi Bi : R) (h : Np.float64) : Np.float64 :=
  let h1 := if Np.f_gt h (Np.Fin zi) then Np.Fin zi else h in
  if Np.f_lt h1 (Np.Fin (zi - Bi)) then Np.Fin (zi - Bi) else h1.

Definition hydro_node (zi zp Bi Bp ai dx K : R) (Hp : Np.float64)
  : Np.float64 :=
  clamp zi Bi (hydro_root zi zp Bi Bp ai dx K Hp).

(** Spec side: [sum over j >= i of x[j]]. *)
Definition sum_from (i : nat) (x : Np.array) : R :=
  fold_right Rplus 0 (skipn i x).

(** The loop invariant of [integrate]: nodes from [m] on hold their tail
    sums, nodes before [m] are untouched. *)
Definition integrate_inv (x : Np.array) (m : nat) (integ : Np.array) : Prop :=
  length integ = length x /\
  (forall j, (m <= j < length x)%nat -> nth j integ 0 = sum_from j x) /\
  (forall j, (j < m)%nat -> nth j integ 0 = nth j x 0).

(** The height [computeHydro] leaves at node [i], as a recurrence on the
    node before: [H[0] = z[0]], [H[i] = hydro_node ... H[i-1]]. *)
Fixpoint water_table (B z accum : Np.array) (dx K : R) (i : nat)
  : Np.float64 :=
  match i with
  | O => Np.Fin (nth 0 z 0)
  | S j =>
      hydro_node (nth i z 0) (nth j z 0) (nth i B 0) (nth j B 0)
                 (nth i accum 0) dx K (water_table B z accum dx K j)
  end.

(** The loop invariant of [computeHydro] before the pass at node [i]: nodes
    below [i] hold their final heights, the others still hold [z]. *)
Definition hydro_inv (B z accum : Np.array) (dx K : R)
  (i : nat) (H : list Np.float64) : Prop :=
  length H = length z /\
  (forall j, (j < i)%nat -> nth j H Np.NaN = water_table B z accum dx K j) /\
  (forall j, (i <= j < length z)%nat -> nth j H Np.NaN = Np.Fin (nth j z 0)).

(** The value a number-or-array contributes at node [i]. *)
Definition field_at (f : Np.field) (i : nat) : R :=
  match f with
  | Np.Scalar r => r
  | Np.PerNode a => nth i a 0
  end.

(** Spec side: what the increments of a group add up to at node [i], in the
    order of Python's [sum]: [((0 + ds[0][i]) + ds[1][i]) + ...]. *)
Definition increments_at (ds : list Np.array) (i : nat) : R :=
  fold_left (fun acc d => acc + nth i d 0) ds 0.

(** Spec side: the whole increment a diffusion step leaves on a grid of two
    or more nodes: 0, the interior update, and the last interior value (0 on
    a grid of two nodes) once more. *)
Definition diffusion_increment (dt dx : R) (s kd_var : Np.array) : Np.array :=
  let v := Erosion.interior dt dx s kd_var in
  (0 :: v) ++ [last (0 :: v) 0].

(** ** Arrays: reading and writing items *)

Section ItemFacts.
Context {A : Type}.
Implicit Types (a : list A) (i j : nat) (v d : A).

Lemma item_lt a i d : (i < length a)%nat -> Np.item a i = Ok (nth i a d).
Proof.
  intros Hi. unfold Np.item.
  rewrite (nth_error_nth' a d Hi). reflexivity.
Qed.

Lemma update_length a i v : length (Np.update a i v) = length a.
Proof.
  revert i. induction a as [|x a IH]; intros [|i]; simpl; auto.
Qed.

Lemma nth_update_eq a i v d :
  (i < length a)%nat -> nth i (Np.update a i v) d = v.
Proof.
  revert i. induction a as [|x a IH]; intros [|i] Hi; simpl in *;
    try lia; auto.
  apply IH. lia.
Qed.

Lemma nth_update_neq a i j v d :
  i <> j -> nth j (Np.update a i v) d = nth j a d.
Proof.
  revert i j. induction a as [|x a IH]; intros [|i] [|j] Hij; simpl;
    try congruence; auto.
Qed.

Lemma set_item_lt a i v :
  (i < length a)%nat -> Np.set_item a i v = Ok (Np.update a i v).
Proof.
  intros Hi. unfold Np.set_item.
  apply Nat.ltb_lt in Hi. rewrite Hi. reflexivity.
Qed.

Lemma norm_index_nonneg (n k : nat) :
  (k < n)%nat -> Np.norm_index n (Z.of_nat k) = Ok k.
Proof.
  intros Hk. unfold Np.norm_index.
  replace ((0 <=? Z.of_nat k)%Z && (Z.of_nat k <? Z.of_nat n)%Z) with true.
  - rewrite Nat2Z.id. reflexivity.
  - symmetry. apply andb_true_iff. split.
    + apply Z.leb_le. lia.
    + apply Z.ltb_lt. lia.
Qed.

Lemma norm_index_neg (n k : nat) :
  (0 < k <= n)%nat -> Np.norm_index n (- Z.of_nat k) = Ok (n - k)%nat.
Proof.
  intros Hk. unfold Np.norm_index.
  replace ((0 <=? - Z.of_nat k)%Z && (- Z.of_nat k <? Z.of_nat n)%Z)
    with false.
  - replace ((- Z.of_nat n <=? - Z.of_nat k)%Z && (- Z.of_nat k <? 0)%Z)
      with true.
    + f_equal. lia.
    + symmetry. apply andb_true_iff. split.
      * apply Z.leb_le. lia.
      * apply Z.ltb_lt. lia.
  - symmetry. apply andb_false_iff. left. apply Z.leb_gt. lia.
Qed.

Lemma getitem_neg a (k : nat) d :
  (0 < k <= length a)%nat ->
  Np.getitem a (- Z.of_nat k) = Ok (nth (length a - k) a d).
Proof.
  intros Hk. unfold Np.getitem.
  rewrite (norm_index_neg Hk). simpl. apply item_lt. lia.
Qed.

Lemma setitem_nonneg a (k : nat) v :
  (k < length a)%nat -> Np.setitem a (Z.of_nat k) v = Ok (Np.update a k v).
Proof.
  intros Hk. unfold Np.setitem.
  rewrite (norm_index_nonneg Hk). simpl. apply set_item_lt. exact Hk.
Qed.

Lemma setitem_neg a (k : nat) v :
  (0 < k <= length a)%nat ->
  Np.setitem a (- Z.of_nat k) v = Ok (Np.update a (length a - k) v).
Proof.
  intros Hk. unfold Np.setitem.
  rewrite (norm_index_neg Hk). simpl. apply set_item_lt. lia.
Qed.

End ItemFacts.

(** ** Loops: invariant rules for [for_in] over [range] and [range_down] *)

Section LoopRules.
Context {S : Type} (body : nat -> S -> result S) (P : nat -> S -> Prop).

(** Upward loop: [P i] holds before the pass at index [i]. *)
Lemma for_seq_inv (lo n : nat) (s : S) :
  P lo s ->
  (forall i t, (lo <= i < lo + n)%nat -> P i t ->
               exists t', body i t = Ok t' /\ P (Datatypes.S i) t') ->
  exists s', for_in (seq lo n) body s = Ok s' /\ P (lo + n)%nat s'.
Proof.
  revert lo s.
  induction n as [|n IH]; intros lo s H0 Hstep; simpl.
  - exists s. rewrite Nat.add_0_r. auto.
  - destruct (Hstep lo s) as (t & Ht & HP); [lia | assumption |].
    rewrite Ht. simpl.
    destruct (IH (Datatypes.S lo) t HP) as (s' & Hs' & HP').
    + intros i u Hi. apply Hstep. lia.
    + exists s'. split; [assumption|].
      replace (lo + Datatypes.S n)%nat with (Datatypes.S lo + n)%nat by lia.
      assumption.
Qed.

Lemma for_range_inv (lo hi : nat) (s : S) :
  (lo <= hi)%nat ->
  P lo s ->
  (forall i t, (lo <= i < hi)%nat -> P i t ->
               exists t', body i t = Ok t' /\ P (Datatypes.S i) t') ->
  exists s', for_in (range lo hi) body s = Ok s' /\ P hi s'.
Proof.
  intros Hle H0 Hstep. unfold range.
  destruct (@for_seq_inv lo (hi - lo) s H0) as (s' & Hs' & HP).
  - intros i t Hi. apply Hstep. lia.
  - exists s'. split; [assumption|].
    replace hi with (lo + (hi - lo))%nat by lia. assumption.
Qed.

(** Downward loop over [lo+n, ..., lo+1]: [P i] holds after the pass at
    index [i + 1]. *)
Lemma for_rev_seq_inv (lo n : nat) (s : S) :
  P (lo + n)%nat s ->
  (forall i t, (lo < i <= lo + n)%nat -> P i t ->
               exists t', body i t = Ok t' /\ P (i - 1)%nat t') ->
  exists s', for_in (rev (seq (Datatypes.S lo) n)) body s = Ok s' /\ P lo s'.
Proof.
  revert s.
  induction n as [|n IH]; intros s H0 Hstep.
  - simpl. exists s. rewrite Nat.add_0_r in H0. auto.
  - rewrite seq_S, rev_app_distr. simpl.
    destruct (Hstep (Datatypes.S (lo + n)) s) as (t & Ht & HP);
      [lia | replace (Datatypes.S (lo + n)) with (lo + Datatypes.S n)%nat
               by lia; assumption |].
    rewrite Ht. simpl.
    apply IH.
    + replace (lo + n)%nat with (Datatypes.S (lo + n) - 1)%nat by lia.
      assumption.
    + intros i u Hi. apply Hstep. lia.
Qed.

Lemma for_range_down_inv (hi lo : nat) (s : S) :
  (lo <= hi)%nat ->
  P hi s ->
  (forall i t, (lo < i <= hi)%nat -> P i t ->
               exists t', body i t = Ok t' /\ P (i - 1)%nat t') ->
  exists s', for_in (range_down hi lo) body s = Ok s' /\ P lo s'.
Proof.
  intros Hle H0 Hstep. unfold range_down.
  apply for_rev_seq_inv.
  - replace (lo + (hi - lo))%nat with hi by lia. assumption.
  - intros i t Hi. apply Hstep. lia.
Qed.

End LoopRules.

(** ** [integrate]: tail-to-head cumulative sum *)

Lemma sum_from_nth (x : Np.array) (i : nat) :
  (i < length x)%nat -> sum_from i x = nth i x 0 + sum_from (S i) x.
Proof.
  unfold sum_from. revert i.
  induction x as [|v x IH]; intros [|i] Hi; simpl in *; try lia.
  - reflexivity.
  - apply IH. lia.
Qed.

Lemma sum_from_end (x : Np.array) (i : nat) :
  (length x <= i)%nat -> sum_from i x = 0.
Proof.
  intros Hi. unfold sum_from. rewrite skipn_all2 by exact Hi. reflexivity.
Qed.

Lemma integrate_body_inv (x : Np.array) (i : nat) (integ : Np.array) :
  (0 < i < length x)%nat ->
  integrate_inv x i integ ->
  exists integ', integrate_body i integ = Ok integ' /\
                 integrate_inv x (i - 1) integ'.
Proof.
  intros Hi (Hlen & Hdone & Hrest).
  unfold integrate_body.
  rewrite (item_lt integ 0) by lia. simpl.
  rewrite (item_lt integ 0) by lia. simpl.
  rewrite set_item_lt by lia.
  eexists. split; [reflexivity|].
  split; [|split].
  - rewrite update_length. exact Hlen.
  - intros j Hj.
    destruct (Nat.eq_dec j (i - 1)) as [->|Hne].
    + rewrite nth_update_eq by lia.
      rewrite Hrest by lia. rewrite Hdone by lia.
      rewrite (@sum_from_nth x (i - 1)) by lia.
      replace (S (i - 1)) with i by lia. reflexivity.
    + rewrite nth_update_neq by lia. apply Hdone. lia.
  - intros j Hj. rewrite nth_update_neq by lia. apply Hrest. lia.
Qed.

Lemma integrate_spec (x : Np.array) :
  exists integ, integrate x = Ok integ /\
                length integ = length x /\
                forall i, (i < length x)%nat -> nth i integ 0 = sum_from i x.
Proof.
  unfold integrate.
  destruct (@for_range_down_inv _ integrate_body (integrate_inv x)
              (length x - 1) 0 x) as (integ & Hrun & Hlen & Hdone & _).
  - lia.
  - split; [reflexivity|]. split.
    + intros j Hj. replace j with (length x - 1)%nat by lia.
      rewrite sum_from_nth by lia.
      rewrite (@sum_from_end x (S (length x - 1))) by lia. lra.
    + reflexivity.
  - intros i t Hi. apply integrate_body_inv. lia.
  - exists integ. split; [exact Hrun|]. split; [exact Hlen|].
    intros i Hi. apply Hdone. lia.
Qed.

(** ** Broadcasting and elementwise maps *)

Lemma nth_map_R (f : R -> R) (l : Np.array) (i : nat) :
  (i < length l)%nat -> nth i (map f l) 0 = f (nth i l 0).
Proof.
  intros Hi. rewrite (nth_indep _ 0 (f 0)) by (rewrite length_map; exact Hi).
  apply map_nth.
Qed.

Lemma broadcast_to_length (f : Np.field) (n : Z) (r : Np.array) :
  Np.broadcast_to f n = Ok r -> (0 <= n)%Z /\ length r = Z.to_nat n.
Proof.
  unfold Np.broadcast_to.
  destruct (Z.ltb_spec n 0) as [Hn|Hn]; [discriminate|].
  destruct f as [x|a].
  - intros [= <-]. split; [exact Hn|]. apply repeat_length.
  - destruct (Nat.eqb_spec (length a) (Z.to_nat n)) as [Hlen|Hlen].
    + intros [= <-]. auto.
    + destruct a as [|x [|y a]]; try discriminate.
      intros [= <-]. split; [exact Hn|]. apply repeat_length.
Qed.

(** ** Precipitation *)

(** C5.  For every rate field that broadcasts to the [nx] nodes, the
    Precipitation step succeeds and leaves at every node [i] the sum over
    [j >= i] of [rate[j] * dx]; and for [rate = [1,1,1,1]], [dx = 1] the
    integrated profile is [[4,3,2,1]]. *)
Theorem precipitation_run_step_integrates :
  (forall (self : Precipitation.t) (r : Np.array),
      Np.broadcast_to (Precipitation.rate self) (Precipitation.nx self) = Ok r ->
      exists out,
        Precipitation.run_step self = Ok out /\
        length (Precipitation.integrated out) = length r /\
        forall i, (i < length r)%nat ->
          nth i (Precipitation.integrated out) 0 =
          sum_from i (map (fun v => v * Precipitation.dx self) r)) /\
  Precipitation.run_step (Precipitation.mk (Np.PerNode [1; 1; 1; 1]) [] 1 4) =
  Ok (Precipitation.mk (Np.PerNode [1; 1; 1; 1]) [4; 3; 2; 1] 1 4).
Proof.
  split.
  - intros self r Hr. unfold Precipitation.run_step. rewrite Hr. simpl.
    destruct (integrate_spec (map (fun v => v * Precipitation.dx self) r))
      as (integ & Hrun & Hlen & Hsum).
    rewrite Hrun. simpl. eexists. split; [reflexivity|]. simpl.
    rewrite length_map in Hlen, Hsum. auto.
  - unfold Precipitation.run_step, integrate, range_down, integrate_body.
    simpl. unfold Np.set_item. simpl.
    repeat f_equal; lra.
Qed.

Lemma precipitation_run_step_integrates_witness :
  exists out,
    Precipitation.run_step (Precipitation.mk (Np.Scalar 2) [] 3 2) = Ok out /\
    length (Precipitation.integrated out) = 2%nat /\
    forall i, (i < 2)%nat ->
      nth i (Precipitation.integrated out) 0 =
      sum_from i (map (fun v => v * 3) [2; 2]).
Proof.
  apply (proj1 precipitation_run_step_integrates
           (Precipitation.mk (Np.Scalar 2) [] 3 2) [2; 2]).
  reflexivity.
Defined.

(** ** Uplift *)

(** C9.  For every uplift-rate field that broadcasts to [nx >= 1] nodes and
    every step [dt], the Uplift step succeeds with [dtopo[0] = 0] and
    [dtopo[i] = rate[i] * dt] at every node [i > 0]. *)
Theorem uplift_run_step_increment
  (self : Uplift.t) (dt : R) (u_var : Np.array) :
  Np.broadcast_to (Uplift.rate self) (Uplift.nx self) = Ok u_var ->
  (1 <= Uplift.nx self)%Z ->
  exists out,
    Uplift.run_step self dt = Ok out /\
    length (Uplift.dtopo out) = length u_var /\
    nth 0 (Uplift.dtopo out) 0 = 0 /\
    forall i, (0 < i < length u_var)%nat ->
      nth i (Uplift.dtopo out) 0 = nth i u_var 0 * dt.
Proof.
  intros Hu Hnx.
  destruct (broadcast_to_length _ _ Hu) as [_ Hlen].
  assert (Hpos : (0 < length u_var)%nat) by lia.
  unfold Uplift.run_step. rewrite Hu. simpl.
  change 0%Z with (Z.of_nat 0).
  rewrite setitem_nonneg by (rewrite length_map; exact Hpos). simpl.
  eexists. split; [reflexivity|]. simpl.
  split; [|split].
  - rewrite update_length, length_map. reflexivity.
  - apply nth_update_eq. rewrite length_map. exact Hpos.
  - intros i Hi. rewrite nth_update_neq by lia.
    rewrite nth_map_R by lia. apply Rmult_comm.
Qed.

Lemma uplift_run_step_increment_witness :
  exists out,
    Uplift.run_step (Uplift.mk (Np.Scalar 3) [] 3) 2 = Ok out /\
    length (Uplift.dtopo out) = 3%nat /\
    nth 0 (Uplift.dtopo out) 0 = 0 /\
    forall i, (0 < i < 3)%nat -> nth i (Uplift.dtopo out) 0 = nth i [3; 3; 3] 0 * 2.
Proof.
  apply (@uplift_run_step_increment (Uplift.mk (Np.Scalar 3) [] 3) 2 [3; 3; 3]).
  - reflexivity.
  - simpl. lia.
Defined.

(** ** Topography *)

Lemma map2_length (f : R -> R -> R) (a b : Np.array) :
  length a = length b -> length (Np.map2 f a b) = length a.
Proof.
  revert b. induction a as [|x a IH]; intros [|y b] Hlen; simpl in *;
    try discriminate; auto.
Qed.

Lemma nth_map2 (f : R -> R -> R) (a b : Np.array) (i : nat) :
  length a = length b -> (i < length a)%nat ->
  nth i (Np.map2 f a b) 0 = f (nth i a 0) (nth i b 0).
Proof.
  revert b i. induction a as [|x a IH]; intros [|y b] [|i] Hlen Hi;
    simpl in *; try discriminate; try lia; auto.
  apply IH; lia.
Qed.

Lemma map2_plus_zeros (a : Np.array) :
  Np.map2 Rplus a (repeat 0 (length a)) = a.
Proof.
  induction a as [|x a IH]; simpl; [reflexivity|].
  rewrite IH, Rplus_0_r. reflexivity.
Qed.

Lemma map_plus_0_l (a : Np.array) : map (Rplus 0) a = a.
Proof.
  induction a as [|x a IH]; simpl; [reflexivity|].
  rewrite IH, Rplus_0_l. reflexivity.
Qed.

Lemma map_plus_0_r (a : Np.array) : map (fun v => v + 0) a = a.
Proof.
  induction a as [|x a IH]; simpl; [reflexivity|].
  rewrite IH, Rplus_0_r. reflexivity.
Qed.

Lemma broadcast2_same_length (f : R -> R -> R) (a b : Np.array) :
  length a = length b -> Np.broadcast2 f a b = Ok (Np.map2 f a b).
Proof.
  intros Hlen. unfold Np.broadcast2.
  rewrite Hlen, Nat.eqb_refl. reflexivity.
Qed.

(** Adding up zero increments of [n] nodes, from an accumulator that is the
    number 0 or the zero array, ends with one of these two. *)
Lemma sum_zeros (n : nat) (ds : list Np.array) (acc : Np.field) :
  Forall (fun d => d = repeat 0 n) ds ->
  acc = Np.Scalar 0 \/ acc = Np.PerNode (repeat 0 n) ->
  exists total,
    for_in ds (fun d acc => r <- Np.ladd acc d ;; Ok (Np.PerNode r)) acc
    = Ok total /\
    (total = Np.Scalar 0 \/ total = Np.PerNode (repeat 0 n)).
Proof.
  intros Hds. revert acc.
  induction Hds as [|d ds Hd _ IH]; intros acc Hacc; simpl.
  - exists acc. auto.
  - subst d. destruct Hacc as [-> | ->]; simpl.
    + rewrite map_plus_0_l. apply IH. auto.
    + rewrite broadcast2_same_length by reflexivity. simpl.
      pose proof (map2_plus_zeros (repeat 0 n)) as Hz.
      rewrite repeat_length in Hz. rewrite Hz. apply IH. auto.
Qed.

(** C8.  For every elevation profile of at least two nodes, when every
    registered increment is the zero array the Topography step leaves every
    node but the last unchanged and writes the second-to-last value into the
    last node. *)
Theorem topography_run_step_zero_increments (self : Topography.t) :
  let e := Topography.elevation self in
  (2 <= length e)%nat ->
  Forall (fun d => d = Np.zeros_like e) (Topography.dtopo self) ->
  exists out,
    Topography.run_step self = Ok out /\
    length (Topography.elevation out) = length e /\
    (forall i, (i < length e - 1)%nat ->
               nth i (Topography.elevation out) 0 = nth i e 0) /\
    nth (length e - 1) (Topography.elevation out) 0 = nth (length e - 2) e 0.
Proof.
  intros e HN Hzero. unfold Topography.run_step, Np.sum.
  destruct (@sum_zeros (length e) (Topography.dtopo self) (Np.Scalar 0) Hzero)
    as (total & Hsum & Htotal); [auto|].
  rewrite Hsum. simpl.
  assert (Hadd : Np.radd (Topography.elevation self) total = Ok e).
  { destruct Htotal as [-> | ->]; simpl.
    - rewrite map_plus_0_r. reflexivity.
    - rewrite broadcast2_same_length by (rewrite repeat_length; reflexivity).
      fold e. rewrite map2_plus_zeros. reflexivity. }
  rewrite Hadd. simpl.
  change (-2)%Z with (- Z.of_nat 2)%Z.
  rewrite (getitem_neg e 0) by lia. simpl.
  change (-1)%Z with (- Z.of_nat 1)%Z.
  rewrite setitem_neg by lia. simpl.
  eexists. split; [reflexivity|]. simpl.
  split; [|split].
  - apply update_length.
  - intros i Hi. apply nth_update_neq. lia.
  - apply nth_update_eq. lia.
Qed.

Lemma topography_run_step_zero_increments_witness :
  exists out,
    Topography.run_step (Topography.mk [5; 7; 9] [[0; 0; 0]; [0; 0; 0]])
    = Ok out /\
    length (Topography.elevation out) = 3%nat /\
    (forall i, (i < 3 - 1)%nat ->
               nth i (Topography.elevation out) 0 = nth i [5; 7; 9] 0) /\
    nth (3 - 1) (Topography.elevation out) 0 = nth (3 - 2) [5; 7; 9] 0.
Proof.
  apply (@topography_run_step_zero_increments
           (Topography.mk [5; 7; 9] [[0; 0; 0]; [0; 0; 0]])).
  - simpl. lia.
  - simpl. repeat constructor.
Defined.

(** ** Erosion: hillslope diffusion *)

Section Slices.
Context {A : Type}.
Implicit Types (a v : list A) (d : A).

Lemma slice_to_m2_length a : length (Np.slice_to_m2 a) = (length a - 2)%nat.
Proof. unfold Np.slice_to_m2. rewrite length_firstn. lia. Qed.

Lemma slice_1_m1_length a : length (Np.slice_1_m1 a) = (length a - 2)%nat.
Proof.
  unfold Np.slice_1_m1. rewrite length_firstn, length_skipn. lia.
Qed.

Lemma slice_2_length a : length (Np.slice_2 a) = (length a - 2)%nat.
Proof. unfold Np.slice_2. apply length_skipn. Qed.

Lemma nth_slice_to_m2 a j d :
  (j < length a - 2)%nat -> nth j (Np.slice_to_m2 a) d = nth j a d.
Proof.
  intros Hj. unfold Np.slice_to_m2. rewrite nth_firstn.
  apply Nat.ltb_lt in Hj. rewrite Hj. reflexivity.
Qed.

Lemma nth_slice_1_m1 a j d :
  (j < length a - 2)%nat -> nth j (Np.slice_1_m1 a) d = nth (S j) a d.
Proof.
  intros Hj. unfold Np.slice_1_m1. rewrite nth_firstn.
  apply Nat.ltb_lt in Hj. rewrite Hj. rewrite nth_skipn. reflexivity.
Qed.

Lemma nth_slice_2 a j d : nth j (Np.slice_2 a) d = nth (S (S j)) a d.
Proof. unfold Np.slice_2. rewrite nth_skipn. reflexivity. Qed.

(** Writing a value of the slice's shape into [a[1:-1]]. *)
Lemma set_slice_1_m1_same_shape a v :
  (2 <= length a)%nat -> length v = (length a - 2)%nat ->
  exists a', Np.set_slice_1_m1 a v = Ok a' /\
             length a' = length a /\
             forall i d, (1 <= i <= length a - 2)%nat ->
                         nth i a' d = nth (i - 1) v d.
Proof.
  intros Ha Hv. unfold Np.set_slice_1_m1.
  rewrite slice_1_m1_length, Hv, Nat.eqb_refl. cbn [bind].
  eexists. split; [reflexivity|]. split.
  - rewrite !length_app, length_firstn, length_skipn. lia.
  - intros i d Hi.
    rewrite app_nth2 by (rewrite length_firstn; lia).
    rewrite length_firstn.
    replace (i - Nat.min 1 (length a))%nat with (i - 1)%nat by lia.
    apply app_nth1. lia.
Qed.

End Slices.

(** The interior update, node by node. *)
Lemma interior_length (dt dx : R) (s kd_var : Np.array) :
  length kd_var = length s ->
  length (Erosion.interior dt dx s kd_var) = (length s - 2)%nat.
Proof.
  intros Hkd. unfold Erosion.interior.
  rewrite length_map.
  repeat (rewrite map2_length);
    rewrite ?slice_to_m2_length, ?slice_1_m1_length, ?slice_2_length; lia.
Qed.

Lemma nth_interior (dt dx : R) (s kd_var : Np.array) (j : nat) :
  length kd_var = length s ->
  (j < length s - 2)%nat ->
  nth j (Erosion.interior dt dx s kd_var) 0 =
  dt / dx ^ 2 / 2 *
  ((nth j s 0 - nth (S j) s 0) * (nth j kd_var 0 + nth (S j) kd_var 0)
   - (nth (S j) s 0 - nth (S (S j)) s 0)
     * (nth (S j) kd_var 0 + nth (S (S j)) kd_var 0)).
Proof.
  intros Hkd Hj.
  assert (Hlen := @interior_length dt dx s kd_var Hkd).
  unfold Erosion.interior in *. rewrite length_map in Hlen.
  rewrite nth_map_R by lia.
  assert (Hs0 := slice_to_m2_length s).
  assert (Hs1 := slice_1_m1_length s).
  assert (Hs2 := slice_2_length s).
  assert (Hk0 := slice_to_m2_length kd_var).
  assert (Hk1 := slice_1_m1_length kd_var).
  assert (Hk2 := slice_2_length kd_var).
  assert (Hd1 : length (Np.map2 Rminus (Np.slice_to_m2 s) (Np.slice_1_m1 s))
                = (length s - 2)%nat)
    by (rewrite map2_length; lia).
  assert (Hd2 : length (Np.map2 Rminus (Np.slice_1_m1 s) (Np.slice_2 s))
                = (length s - 2)%nat)
    by (rewrite map2_length; lia).
  assert (Hp1 : length (Np.map2 Rplus (Np.slice_to_m2 kd_var)
                          (Np.slice_1_m1 kd_var)) = (length s - 2)%nat)
    by (rewrite map2_length; lia).
  assert (Hp2 : length (Np.map2 Rplus (Np.slice_1_m1 kd_var)
                          (Np.slice_2 kd_var)) = (length s - 2)%nat)
    by (rewrite map2_length; lia).
  rewrite nth_map2; [| rewrite !map2_length; lia | rewrite map2_length; lia].
  rewrite (@nth_map2 Rmult) by lia.
  rewrite (@nth_map2 Rmult) by lia.
  rewrite !(@nth_map2 Rminus) by lia.
  rewrite !(@nth_map2 Rplus) by lia.
  rewrite !nth_slice_to_m2, !nth_slice_1_m1, !nth_slice_2 by lia.
  reflexivity.
Qed.

(** One diffusion step on a grid of at least two nodes, in the code's own
    terms. *)
Lemma erosion_run_step_spec (self : Erosion.t) (dt : R) (kd_var : Np.array) :
  let s := Erosion.surface self in
  let N := length s in
  (2 <= N)%nat ->
  length (Erosion.dtopo self) = N ->
  Np.broadcast_to (Erosion.kd self) (Z.of_nat N) = Ok kd_var ->
  exists out,
    Erosion.run_step self dt = Ok out /\
    Erosion.surface out = s /\ Erosion.dx out = Erosion.dx self /\
    length (Erosion.dtopo out) = N /\
    nth 0 (Erosion.dtopo out) 0 = 0 /\
    nth (N - 1) (Erosion.dtopo out) 0 = nth (N - 2) (Erosion.dtopo out) 0 /\
    forall i, (1 <= i <= N - 2)%nat ->
      nth i (Erosion.dtopo out) 0 =
      nth (i - 1) (Erosion.interior dt (Erosion.dx self) s kd_var) 0.
Proof.
  intros s N HN Hd Hkd.
  destruct (broadcast_to_length _ _ Hkd) as [_ Hlen].
  rewrite Nat2Z.id in Hlen.
  unfold Erosion.run_step. fold s. fold N. rewrite Hkd. cbn [bind].
  destruct (@set_slice_1_m1_same_shape _ (Erosion.dtopo self)
              (Erosion.interior dt (Erosion.dx self) s kd_var))
    as (d1 & Hset & Hlen1 & Hnth1).
  { lia. }
  { rewrite interior_length by exact Hlen. fold N. lia. }
  rewrite Hset. cbn [bind].
  change 0%Z with (Z.of_nat 0).
  rewrite setitem_nonneg by lia. cbn [bind].
  change (-2)%Z with (- Z.of_nat 2)%Z.
  rewrite (getitem_neg (Np.update d1 0 0) 0) by (rewrite update_length; lia).
  cbn [bind].
  change (-1)%Z with (- Z.of_nat 1)%Z.
  rewrite setitem_neg by (rewrite update_length; lia). cbn [bind].
  rewrite !update_length, Hlen1, Hd.
  eexists. split; [reflexivity|]. simpl.
  split; [reflexivity|]. split; [reflexivity|].
  split; [|split; [|split]].
  - rewrite !update_length. lia.
  - rewrite nth_update_neq by lia. apply nth_update_eq. lia.
  - rewrite nth_update_eq by (rewrite update_length; lia).
    destruct (Nat.eq_dec (N - 1) (N - 2)) as [He|He]; [lia|].
    rewrite (@nth_update_neq _ (Np.update d1 0 0) (N - 1) (N - 2)) by exact He.
    reflexivity.
  - intros i Hi. rewrite !nth_update_neq by lia.
    apply Hnth1. lia.
Qed.

(** C3.  For every elevation profile [z] of [N >= 3] nodes, every diffusivity
    field [kd] that broadcasts to [N] and every step [dt], the diffusion step
    (on its increment buffer of [N] nodes, with a non-zero spacing [dx])
    succeeds with
    [dtopo[i] = dt/(2*dx^2) * ((z[i-1]-z[i])*(kd[i-1]+kd[i])
                               - (z[i]-z[i+1])*(kd[i]+kd[i+1]))]
    at every interior node [i = 1..N-2], [dtopo[0] = 0] and
    [dtopo[N-1] = dtopo[N-2]]. *)
Theorem erosion_run_step_formula
  (self : Erosion.t) (dt : R) (kd : Np.array) :
  let z := Erosion.surface self in
  let N := length z in
  let dx := Erosion.dx self in
  (3 <= N)%nat ->
  length (Erosion.dtopo self) = N ->
  Np.broadcast_to (Erosion.kd self) (Z.of_nat N) = Ok kd ->
  dx <> 0 ->
  exists out,
    Erosion.run_step self dt = Ok out /\
    length (Erosion.dtopo out) = N /\
    (forall i, (1 <= i <= N - 2)%nat ->
       nth i (Erosion.dtopo out) 0 =
       dt / (2 * dx ^ 2) *
       ((nth (i - 1) z 0 - nth i z 0) * (nth (i - 1) kd 0 + nth i kd 0)
        - (nth i z 0 - nth (i + 1) z 0) * (nth i kd 0 + nth (i + 1) kd 0))) /\
    nth 0 (Erosion.dtopo out) 0 = 0 /\
    nth (N - 1) (Erosion.dtopo out) 0 = nth (N - 2) (Erosion.dtopo out) 0.
Proof.
  intros z N dx HN Hd Hkd Hdx.
  destruct (@erosion_run_step_spec self dt kd) as
    (out & Hrun & _ & _ & Hlen & H0 & Hlast & Hint); try assumption.
  { fold z N. lia. }
  destruct (broadcast_to_length _ _ Hkd) as [_ Hklen].
  rewrite Nat2Z.id in Hklen.
  exists out. repeat split; try assumption.
  intros i Hi. rewrite Hint by exact Hi.
  rewrite nth_interior by (fold z N; lia).
  fold z dx.
  replace (S (i - 1)) with i by lia.
  replace (S i) with (i + 1)%nat by lia.
  field. exact Hdx.
Qed.

Lemma erosion_run_step_formula_witness :
  exists out,
    Erosion.run_step (Erosion.mk (Np.Scalar 1) [0; 1; 4; 9] 3 1 [0; 0; 0; 0]) 2
    = Ok out /\
    nth 1 (Erosion.dtopo out) 0 = 4 /\
    nth 0 (Erosion.dtopo out) 0 = 0 /\
    nth 3 (Erosion.dtopo out) 0 = nth 2 (Erosion.dtopo out) 0.
Proof.
  destruct (@erosion_run_step_formula
              (Erosion.mk (Np.Scalar 1) [0; 1; 4; 9] 3 1 [0; 0; 0; 0]) 2
              [1; 1; 1; 1])
    as (out & Hrun & _ & Hint & H0 & Hlast).
  - simpl. lia.
  - reflexivity.
  - reflexivity.
  - simpl. lra.
  - exists out. split; [exact Hrun|]. split; [|split].
    + rewrite (Hint 1%nat) by (simpl; lia). simpl. field.
    + exact H0.
    + exact Hlast.
Defined.

(** C7.  For every linear elevation profile (one gradient [g] between every
    two neighbours, on a non-zero spacing) and constant diffusivity [k], the
    diffusion step leaves exactly zero at every interior node. *)
Theorem erosion_linear_profile_steady
  (self : Erosion.t) (dt k g : R) :
  let z := Erosion.surface self in
  let N := length z in
  let dx := Erosion.dx self in
  (3 <= N)%nat ->
  length (Erosion.dtopo self) = N ->
  Np.broadcast_to (Erosion.kd self) (Z.of_nat N) = Ok (repeat k N) ->
  dx <> 0 ->
  (forall i, (S i < N)%nat -> (nth (S i) z 0 - nth i z 0) / dx = g) ->
  exists out,
    Erosion.run_step self dt = Ok out /\
    forall i, (1 <= i <= N - 2)%nat -> nth i (Erosion.dtopo out) 0 = 0.
Proof.
  intros z N dx HN Hd Hkd Hdx Hlin.
  destruct (@erosion_run_step_spec self dt (repeat k N)) as
    (out & Hrun & _ & _ & _ & _ & _ & Hint); try assumption.
  { fold z N. lia. }
  exists out. split; [exact Hrun|].
  intros i Hi. rewrite Hint by exact Hi.
  rewrite nth_interior by (rewrite ?repeat_length; fold z N; lia).
  fold z dx N.
  replace (S (i - 1)) with i by lia.
  rewrite !nth_repeat_lt by lia.
  assert (Hstep : forall j, (S j < N)%nat ->
                            nth j z 0 - nth (S j) z 0 = - (g * dx)).
  { intros j Hj. rewrite <- (Hlin j Hj). field. exact Hdx. }
  assert (H1 := Hstep (i - 1)%nat). replace (S (i - 1)) with i in H1 by lia.
  rewrite H1 by lia. rewrite (Hstep i) by lia.
  ring.
Qed.

(** The scenario of the notebook's grid: five nodes on [0, 4], [dx = 1],
    [kd = 1], [dt = 0.5]. *)
Lemma erosion_linear_profile_steady_witness :
  exists out,
    Erosion.run_step
      (Erosion.mk (Np.Scalar 1) [0; 1; 2; 3; 4] 4 1 [0; 0; 0; 0; 0]) (1 / 2)
    = Ok out /\
    forall i, (1 <= i <= 5 - 2)%nat -> nth i (Erosion.dtopo out) 0 = 0.
Proof.
  apply (@erosion_linear_profile_steady
           (Erosion.mk (Np.Scalar 1) [0; 1; 2; 3; 4] 4 1 [0; 0; 0; 0; 0])
           (1 / 2) 1 1).
  - simpl. lia.
  - reflexivity.
  - reflexivity.
  - simpl. lra.
  - intros i Hi. simpl in Hi.
    destruct i as [|[|[|[|i]]]]; simpl; try lia; field.
Defined.

(** ** Geom: the grid and the initial elevation *)

Lemma arange_length (n : nat) : length (Np.arange n) = n.
Proof. unfold Np.arange. rewrite length_map, length_seq. reflexivity. Qed.

Lemma nth_arange (n i : nat) : (i < n)%nat -> nth i (Np.arange n) 0 = INR i.
Proof.
  intros Hi. unfold Np.arange.
  rewrite (nth_indep _ 0 (INR 0)) by (rewrite length_map, length_seq; lia).
  rewrite map_nth, seq_nth by lia. reflexivity.
Qed.

(** [np.linspace] on two or more samples: sample [i] is
    [start + i * (stop - start) / (num - 1)], the last one is [stop]. *)
Lemma linspace_spec (start stop : R) (num : Z) :
  (2 <= num)%Z ->
  exists y,
    Np.linspace start stop num = Ok y /\
    length y = Z.to_nat num /\
    (forall i, (i < Z.to_nat num)%nat ->
               nth i y 0 = start + INR i * ((stop - start) / IZR (num - 1))) /\
    nth (Z.to_nat num - 1) y 0 = stop.
Proof.
  intros Hnum. unfold Np.linspace.
  destruct (Z.ltb_spec num 0) as [Hlt|_]; [lia|].
  destruct (Z.ltb_spec 0 (num - 1)) as [_|Hle]; [|lia].
  destruct (Z.ltb_spec 1 num) as [_|Hle]; [|lia].
  set (n := Z.to_nat num).
  set (step := (stop - start) / IZR (num - 1)).
  set (y := map (fun v => v + start) (map (fun k => k * step) (Np.arange n))).
  assert (Hlen : length y = n)
    by (unfold y; rewrite !length_map; apply arange_length).
  assert (Hn : (2 <= n)%nat) by (unfold n; lia).
  change (-1)%Z with (- Z.of_nat 1)%Z.
  rewrite setitem_neg by lia.
  eexists. split; [reflexivity|]. rewrite Hlen.
  split; [|split].
  - rewrite update_length. exact Hlen.
  - intros i Hi.
    destruct (Nat.eq_dec i (n - 1)) as [->|Hne].
    + rewrite nth_update_eq by lia.
      assert (Hdiv : INR (n - 1) = IZR (num - 1)).
      { rewrite INR_IZR_INZ. f_equal. unfold n. lia. }
      unfold step. rewrite Hdiv. field.
      apply not_0_IZR. lia.
    + rewrite nth_update_neq by lia.
      unfold y. rewrite nth_map_R by (rewrite length_map, arange_length; lia).
      rewrite nth_map_R by (rewrite arange_length; lia).
      rewrite nth_arange by lia. ring.
  - apply nth_update_eq. lia.
Qed.

Lemma linspace_negative (start stop : R) (num : Z) :
  (num < 0)%Z -> Np.linspace start stop num = Raise ValueError.
Proof.
  intros Hnum. unfold Np.linspace.
  destruct (Z.ltb_spec num 0) as [_|Hge]; [reflexivity | lia].
Qed.

(** C4 (as the code has it).  Initialization has no parameter check of its
    own.  For every [nx >= 2] and every [length], positive or not, it
    succeeds: the nodes before the last are at [i * (length / (nx - 1))], the
    last one at [length], and [dx = length / (nx - 1)].  [nx = 0] is accepted
    too, with an empty grid.  It fails for [nx = 1], by the ZeroDivisionError
    of [L/(len(surface) - 1)], and for [nx < 0], by the ValueError of
    [np.linspace]. *)
Theorem initialize_grid_outcomes (g : Geom.t) (kd : Np.field) :
  ((2 <= Geom.nx g)%Z ->
   exists st,
     initialize_grid g kd = Ok st /\
     length (Erosion.surface st) = Z.to_nat (Geom.nx g) /\
     (forall i, (i < Z.to_nat (Geom.nx g) - 1)%nat ->
        nth i (Erosion.surface st) 0 =
        INR i * (Geom.length g / IZR (Geom.nx g - 1))) /\
     nth (Z.to_nat (Geom.nx g) - 1) (Erosion.surface st) 0 = Geom.length g /\
     Erosion.dx st = Geom.length g / IZR (Geom.nx g - 1)) /\
  (Geom.nx g = 0%Z ->
   initialize_grid g kd =
   Ok (Erosion.mk kd [] (Geom.length g) (Geom.length g / IZR (0 - 1)) [])) /\
  (Geom.nx g = 1%Z -> initialize_grid g kd = Raise ZeroDivisionError) /\
  ((Geom.nx g < 0)%Z -> initialize_grid g kd = Raise ValueError).
Proof.
  split; [|split; [|split]].
  - intros Hnx. unfold initialize_grid, Geom.initialize.
    destruct (@linspace_spec 0 (Geom.length g) (Geom.nx g) Hnx)
      as (y & Hy & Hlen & Hnth & Hlast).
    rewrite Hy. cbn [bind]. unfold Erosion.initialize. cbn [Geom.z Geom.L].
    destruct (Z.eqb_spec (Z.of_nat (length y) - 1) 0) as [H0|_]; [lia|].
    eexists. split; [reflexivity|]. simpl.
    split; [exact Hlen|]. split; [|split].
    + intros i Hi. rewrite Hnth by lia. rewrite Rminus_0_r. ring.
    + exact Hlast.
    + rewrite Hlen. f_equal. f_equal. lia.
  - intros Hnx. unfold initialize_grid, Geom.initialize. rewrite Hnx.
    reflexivity.
  - intros Hnx. unfold initialize_grid, Geom.initialize. rewrite Hnx.
    reflexivity.
  - intros Hnx. unfold initialize_grid, Geom.initialize.
    rewrite linspace_negative by exact Hnx. reflexivity.
Qed.

Lemma initialize_grid_outcomes_witness :
  exists st,
    initialize_grid (Geom.mk 4 0 5) (Np.Scalar 1) = Ok st /\
    length (Erosion.surface st) = 5%nat /\
    nth 4 (Erosion.surface st) 0 = 4 /\
    Erosion.dx st = 4 / 4.
Proof.
  destruct (proj1 (initialize_grid_outcomes (Geom.mk 4 0 5) (Np.Scalar 1)))
    as (st & Hrun & Hlen & _ & Hlast & Hdx).
  - simpl. lia.
  - exists st. repeat split; assumption.
Defined.

(** C4 as stated fails twice: a negative length on five nodes initializes
    like any other, giving the profile [0, -1, -2, -3, -4] and [dx = -1]; and
    [nx = 0] initializes an empty grid. *)
Lemma initialize_grid_accepts_invalid_parameters :
  (Geom.length (Geom.mk (-4) 0 5) <= 0 /\
   exists st,
     initialize_grid (Geom.mk (-4) 0 5) (Np.Scalar 1) = Ok st /\
     Erosion.surface st = [0; -1; -2; -3; -4] /\
     Erosion.dx st = -1) /\
  ((Geom.nx (Geom.mk 4 0 0) < 2)%Z /\
   exists st,
     initialize_grid (Geom.mk 4 0 0) (Np.Scalar 1) = Ok st /\
     Erosion.surface st = []).
Proof.
  split; split.
  - simpl. lra.
  - eexists. split; [reflexivity|]. simpl. split.
    + repeat f_equal; lra.
    + lra.
  - simpl. lia.
  - eexists. split; reflexivity.
Qed.

(** C10.  Two Geom initializations that agree on [length] and [nx] produce
    the same outcome whatever their [slope]s; on two or more nodes it is the
    linear ramp from 0 to [length]. *)
Theorem geom_slope_has_no_effect (g1 g2 : Geom.t) :
  Geom.length g1 = Geom.length g2 ->
  Geom.nx g1 = Geom.nx g2 ->
  Geom.initialize g1 = Geom.initialize g2 /\
  ((2 <= Geom.nx g1)%Z ->
   exists o,
     Geom.initialize g1 = Ok o /\ Geom.initialize g2 = Ok o /\
     length (Geom.z o) = Z.to_nat (Geom.nx g1) /\
     forall i, (i < Z.to_nat (Geom.nx g1))%nat ->
       nth i (Geom.z o) 0 = INR i * (Geom.length g1 / IZR (Geom.nx g1 - 1))).
Proof.
  intros Hlen Hnx.
  assert (Heq : Geom.initialize g1 = Geom.initialize g2)
    by (unfold Geom.initialize; rewrite Hlen, Hnx; reflexivity).
  split; [exact Heq|].
  intros H2. rewrite <- Heq. unfold Geom.initialize.
  destruct (@linspace_spec 0 (Geom.length g1) (Geom.nx g1) H2)
    as (y & Hy & Hylen & Hnth & _).
  rewrite Hy. cbn [bind]. eexists. split; [reflexivity|].
  split; [reflexivity|]. simpl. split; [exact Hylen|].
  intros i Hi. rewrite Hnth by exact Hi. rewrite Rminus_0_r. ring.
Qed.

Lemma geom_slope_has_no_effect_witness :
  Geom.initialize (Geom.mk 4 0 5) = Geom.initialize (Geom.mk 4 7 5).
Proof.
  apply (@geom_slope_has_no_effect (Geom.mk 4 0 5) (Geom.mk 4 7 5));
    reflexivity.
Defined.

(** ** [computeHydro]: the water table *)

Lemma update_update {A : Type} (a : list A) (i : nat) (v w : A) :
  Np.update (Np.update a i v) i w = Np.update a i w.
Proof.
  revert i. induction a as [|x a IH]; intros [|i]; simpl; auto.
  rewrite IH. reflexivity.
Qed.

(** One pass of the loop writes [hydro_node] at node [i] and nothing else. *)
Lemma hydro_body_spec (B z accum : Np.array) (dx K : R)
  (i : nat) (H : list Np.float64) :
  (1 <= i < length z)%nat ->
  length B = length z -> length accum = length z -> length H = length z ->
  hydro_body B z accum dx K i H =
  Ok (Np.update H i
        (hydro_node (nth i z 0) (nth (i - 1) z 0) (nth i B 0)
                    (nth (i - 1) B 0) (nth i accum 0) dx K
                    (nth (i - 1) H Np.NaN))).
Proof.
  intros Hi HB Ha HH. unfold hydro_body.
  rewrite (item_lt z 0) by lia. cbn [bind].
  rewrite (item_lt z 0) by lia. cbn [bind].
  rewrite (item_lt B 0) by lia. cbn [bind].
  rewrite (item_lt B 0) by lia. cbn [bind].
  rewrite (item_lt H Np.NaN) by lia. cbn [bind].
  rewrite (item_lt accum 0) by lia. cbn [bind].
  rewrite set_item_lt by lia. cbn [bind].
  rewrite (item_lt _ Np.NaN) by (rewrite update_length; lia). cbn [bind].
  rewrite nth_update_eq by lia.
  unfold hydro_node, clamp, hydro_root, hydro_c.
  set (root := Np.f_div _ _).
  destruct (Np.f_gt root (Np.Fin (nth i z 0))).
  - rewrite set_item_lt by (rewrite update_length; lia). cbn [bind].
    rewrite update_update.
    rewrite (item_lt _ Np.NaN) by (rewrite update_length; lia). cbn [bind].
    rewrite nth_update_eq by lia.
    destruct (Np.f_lt _ _).
    + rewrite set_item_lt by (rewrite update_length; lia).
      rewrite update_update. reflexivity.
    + reflexivity.
  - cbn [bind].
    rewrite (item_lt _ Np.NaN) by (rewrite update_length; lia). cbn [bind].
    rewrite nth_update_eq by lia.
    destruct (Np.f_lt _ _).
    + rewrite set_item_lt by (rewrite update_length; lia).
      rewrite update_update. reflexivity.
    + reflexivity.
Qed.

Lemma nth_map_Fin (z : Np.array) (j : nat) :
  (j < length z)%nat -> nth j (map Np.Fin z) Np.NaN = Np.Fin (nth j z 0).
Proof.
  intros Hj.
  rewrite (nth_indep _ Np.NaN (Np.Fin 0)) by (rewrite length_map; exact Hj).
  apply map_nth.
Qed.

(** On arrays of one length [computeHydro] raises nothing and returns the
    recurrence [water_table] at every node. *)
Lemma computeHydro_spec (B z accum : Np.array) (dx K : R) :
  length B = length z -> length accum = length z ->
  exists H,
    computeHydro B z accum dx K = Ok H /\
    length H = length z /\
    forall i, (i < length z)%nat ->
              nth i H Np.NaN = water_table B z accum dx K i.
Proof.
  intros HB Ha. unfold computeHydro. rewrite length_map.
  destruct (Nat.eq_dec (length z) 0) as [H0|H0].
  - exists (map Np.Fin z).
    split; [unfold range; rewrite H0; reflexivity|].
    split; [apply length_map|]. intros i Hi. lia.
  - destruct (@for_range_inv _ (hydro_body B z accum dx K)
                (hydro_inv B z accum dx K) 1 (length z) (map Np.Fin z))
      as (H & Hrun & Hlen & Hdone & _).
    + lia.
    + split; [apply length_map|]. split.
      * intros j Hj. replace j with 0%nat by lia.
        rewrite nth_map_Fin by lia. reflexivity.
      * intros j Hj. apply nth_map_Fin. lia.
    + intros i t Hi (Hlen & Hdone & Hrest).
      rewrite hydro_body_spec by assumption.
      eexists. split; [reflexivity|].
      split; [|split].
      * rewrite update_length. exact Hlen.
      * intros j Hj.
        destruct (Nat.eq_dec j i) as [->|Hne].
        -- rewrite nth_update_eq by lia.
           rewrite Hdone by lia.
           destruct i as [|i]; [lia|]. simpl.
           rewrite Nat.sub_0_r. reflexivity.
        -- rewrite nth_update_neq by lia. apply Hdone. lia.
      * intros j Hj. rewrite nth_update_neq by lia. apply Hrest. lia.
    + exists H. split; [exact Hrun|]. split; [exact Hlen|].
      intros i Hi. apply Hdone. exact Hi.
Qed.

(** With a non-negative thickness the two guards leave a finite height
    between [z - B] and [z]. *)
Lemma clamp_bounds (zi Bi r : R) :
  0 <= Bi ->
  exists h, clamp zi Bi (Np.Fin r) = Np.Fin h /\ zi - Bi <= h <= zi.
Proof.
  intros HB. unfold clamp. simpl.
  destruct (Rgt_dec r zi) as [Hgt|Hgt]; simpl.
  - destruct (Rlt_dec zi (zi - Bi)) as [Hlt|Hlt].
    + exists (zi - Bi). split; [reflexivity | lra].
    + exists zi. split; [reflexivity | lra].
  - destruct (Rlt_dec r (zi - Bi)) as [Hlt|Hlt].
    + exists (zi - Bi). split; [reflexivity | lra].
    + exists r. split; [reflexivity | lra].
Qed.

(** A negative discriminant makes the root, and the node, NaN: neither guard
    fires on NaN. *)
Lemma hydro_node_nan (zi zp Bi Bp ai dx K : R) (Hp : Np.float64) (d : R) :
  discriminant (- zi - zp + Bi + Bp) (hydro_c zi zp Bi Bp ai dx K Hp)
  = Np.Fin d ->
  d < 0 ->
  hydro_node zi zp Bi Bp ai dx K Hp = Np.NaN.
Proof.
  intros Hd Hneg. unfold hydro_node, hydro_root.
  rewrite Hd. simpl.
  destruct (Rlt_dec d 0) as [_|Hge]; [reflexivity | lra].
Qed.

(** C2 (as the code has it).  On arrays of one length and a non-zero
    conductivity [computeHydro] raises nothing: it returns a height profile,
    and every node whose discriminant [b^2 - 4c] is negative holds NaN. *)
Theorem computeHydro_negative_discriminant_nan
  (B z accum : Np.array) (dx K : R) :
  length B = length z -> length accum = length z -> K <> 0 ->
  exists H,
    computeHydro B z accum dx K = Ok H /\
    length H = length z /\
    forall i d, (1 <= i < length z)%nat ->
      discriminant (- nth i z 0 - nth (i - 1) z 0 + nth i B 0 + nth (i - 1) B 0)
        (hydro_c (nth i z 0) (nth (i - 1) z 0) (nth i B 0) (nth (i - 1) B 0)
                 (nth i accum 0) dx K (nth (i - 1) H Np.NaN))
      = Np.Fin d ->
      d < 0 ->
      nth i H Np.NaN = Np.NaN.
Proof.
  intros HB Ha HK.
  destruct (@computeHydro_spec B z accum dx K HB Ha) as (H & Hrun & Hlen & Hnth).
  exists H. split; [exact Hrun|]. split; [exact Hlen|].
  intros i d Hi Hd Hneg.
  rewrite Hnth by lia. rewrite Hnth in Hd by lia.
  destruct i as [|j]; [lia|].
  simpl in Hd. rewrite Nat.sub_0_r in Hd.
  simpl water_table. apply (hydro_node_nan _ _ _ _ _ _ _ _ Hd Hneg).
Qed.

Lemma computeHydro_negative_discriminant_nan_witness :
  exists H,
    computeHydro [1; 1] [0; 0] [0; 1] 1 (-1) = Ok H /\
    length H = 2%nat /\
    nth 1 H Np.NaN = Np.NaN.
Proof.
  destruct (@computeHydro_negative_discriminant_nan [1; 1] [0; 0] [0; 1] 1 (-1))
    as (H & Hrun & Hlen & Hnan).
  - reflexivity.
  - reflexivity.
  - lra.
  - exists H. split; [exact Hrun|]. split; [exact Hlen|].
    assert (H0 : nth 0 H Np.NaN = Np.Fin 0).
    { destruct (@computeHydro_spec [1; 1] [0; 0] [0; 1] 1 (-1))
        as (H' & Hrun' & _ & Hnth'); try reflexivity.
      rewrite Hrun in Hrun'. injection Hrun' as <-.
      apply (Hnth' 0%nat). simpl. lia. }
    apply (Hnan 1%nat (-4)).
    + simpl. lia.
    + simpl. rewrite H0. unfold discriminant, hydro_c. simpl.
      f_equal. field.
    + lra.
Defined.

(** C2 as stated fails: with a negative conductivity the discriminant at node
    1 is [-4], and [computeHydro] returns [[0, NaN]] instead of raising. *)
Lemma computeHydro_returns_nan :
  discriminant (- 0 - 0 + 1 + 1) (hydro_c 0 0 1 1 1 1 (-1) (Np.Fin 0))
  = Np.Fin (-4) /\
  computeHydro [1; 1] [0; 0] [0; 1] 1 (-1) = Ok [Np.Fin 0; Np.NaN].
Proof.
  split.
  - unfold discriminant, hydro_c. simpl. f_equal. field.
  - unfold computeHydro, range, hydro_body. simpl.
    unfold Np.set_item, discriminant. simpl.
    destruct (Rlt_dec _ 0) as [_|Hge]; [reflexivity|].
    exfalso. apply Hge. lra.
Qed.

(** ** [computeHydro] on binary64 numbers: rounding and NaN *)

(** An ordinary run of the binary64 model: [B = [1, 2]], [z = [3, 4]],
    [accum = [1, 1]], [dx = K = 1] gives [H = [3, 3.732050807568877]], the
    second node strictly between [z - B = 2] and [z = 4]. *)
Lemma computeHydro_binary64_ordinary_run :
  F64.computeHydro [1; 2]%float [3; 4]%float [1; 1]%float 1%float 1%float
  = Ok [3; 0x1.ddb3d742c2655p+1]%float /\
  F64.within_bounds 4%float 2%float 0x1.ddb3d742c2655p+1%float = true.
Proof.
  split; vm_compute; reflexivity.
Qed.

(** C1.  The bounds fail on valid input.  On two nodes at 1023.999997 and
    1024.000001 ([0x1.ffffffe6d58c9p+9], [0x1.0000000431bdfp+10]) without
    regolith ([B = 0]), without infiltration and with [dx = K = 1], the
    rounded [b ** 2 - 4 * c] is negative, the root is NaN, neither guard
    fires on it, and [H[1]] is returned as NaN: not within
    [z[1] - B[1] <= H[1] <= z[1]]. *)
Theorem computeHydro_nan_breaks_bounds :
  let z := [0x1.ffffffe6d58c9p+9; 0x1.0000000431bdfp+10]%float in
  F64.computeHydro [0; 0]%float z [0; 0]%float 1%float 1%float
  = Ok [0x1.ffffffe6d58c9p+9; nan]%float /\
  F64.within_bounds 0x1.0000000431bdfp+10%float 0%float nan = false.
Proof.
  split; vm_compute; reflexivity.
Qed.

(** C6.  Without regolith the result is not always [z].  On two nodes at
    127.9999997 and 128.0000001 ([0x1.ffffffebde0a1p+6],
    [0x1.000000035afe5p+7]) with [B = 0], [accum = 0] and [dx = K = 1] the
    same rounding makes [H[1]] NaN, which is not [z[1]]. *)
Theorem computeHydro_no_regolith_nan :
  let z := [0x1.ffffffebde0a1p+6; 0x1.000000035afe5p+7]%float in
  F64.computeHydro [0; 0]%float z [0; 0]%float 1%float 1%float
  = Ok [0x1.ffffffebde0a1p+6; nan]%float /\
  (nan =? 0x1.000000035afe5p+7)%float = false.
Proof.
  split; vm_compute; reflexivity.
Qed.

(** * Further properties of the processes *)

(** ** Items: what a failing or succeeding access tells *)

Section ItemInversion.
Context {A : Type}.
Implicit Types (a : list A) (v : A).

Lemma getitem_neg_short a (k : nat) :
  (length a < k)%nat -> Np.getitem a (- Z.of_nat k) = Raise IndexError.
Proof.
  intros Hk. unfold Np.getitem, Np.norm_index.
  replace ((0 <=? - Z.of_nat k)%Z && (- Z.of_nat k <? Z.of_nat (length a))%Z)
    with false
    by (symmetry; apply andb_false_iff; left; apply Z.leb_gt; lia).
  replace ((- Z.of_nat (length a) <=? - Z.of_nat k)%Z && (- Z.of_nat k <? 0)%Z)
    with false
    by (symmetry; apply andb_false_iff; left; apply Z.leb_gt; lia).
  reflexivity.
Qed.

Lemma setitem_0_empty v : Np.setitem (@nil A) 0 v = Raise IndexError.
Proof. reflexivity. Qed.

End ItemInversion.

(** ** Topography: the accumulator on arbitrary increments *)

Lemma nth_map2_plus (a b : Np.array) (i : nat) :
  length a = length b ->
  nth i (Np.map2 Rplus a b) 0 = nth i a 0 + nth i b 0.
Proof.
  intros Hlen.
  destruct (Nat.lt_ge_cases i (length a)) as [Hi|Hi].
  - apply nth_map2; assumption.
  - rewrite !nth_overflow; rewrite ?map2_length; try lia. lra.
Qed.

(** Python's [sum] over increments of [n] nodes each: never an error, and
    node by node the left-to-right sum. *)
Lemma sum_same_shape (n : nat) (ds : list Np.array) (acc : Np.field) :
  Forall (fun d => length d = n) ds ->
  (forall a, acc = Np.PerNode a -> length a = n) ->
  exists total,
    for_in ds (fun d acc => r <- Np.ladd acc d ;; Ok (Np.PerNode r)) acc
    = Ok total /\
    (forall a, total = Np.PerNode a -> length a = n) /\
    forall i, (i < n)%nat ->
      field_at total i =
      fold_left (fun x d => x + nth i d 0) ds (field_at acc i).
Proof.
  intros Hds. revert acc.
  induction Hds as [|d ds Hd _ IH]; intros acc Hacc; simpl.
  - exists acc. auto.
  - destruct acc as [r|a]; simpl.
    + destruct (IH (Np.PerNode (map (Rplus r) d))) as (t & Ht & Hshape & Hat).
      { intros a [= <-]. rewrite length_map. exact Hd. }
      exists t. split; [exact Ht|]. split; [exact Hshape|].
      intros i Hi. rewrite Hat by exact Hi. simpl.
      rewrite nth_map_R by lia. reflexivity.
    + assert (Ha : length a = n) by (apply Hacc; reflexivity).
      rewrite broadcast2_same_length by lia. simpl.
      destruct (IH (Np.PerNode (Np.map2 Rplus a d))) as (t & Ht & Hshape & Hat).
      { intros a' [= <-]. rewrite map2_length by lia. exact Ha. }
      exists t. split; [exact Ht|]. split; [exact Hshape|].
      intros i Hi. rewrite Hat by exact Hi. simpl.
      rewrite nth_map2_plus by lia. reflexivity.
Qed.

(** The sum of the elevation and the increments, before the boundary copy. *)
Lemma elevation_plus_increments (e : Np.array) (ds : list Np.array) :
  Forall (fun d => length d = length e) ds ->
  exists e1,
    (total <- Np.sum ds ;; Np.radd e total) = Ok e1 /\
    length e1 = length e /\
    forall i, (i < length e)%nat ->
              nth i e1 0 = nth i e 0 + increments_at ds i.
Proof.
  intros Hds. unfold Np.sum.
  destruct (@sum_same_shape (length e) ds (Np.Scalar 0) Hds)
    as (total & Hsum & Hshape & Hat); [discriminate|].
  rewrite Hsum. cbn [bind].
  destruct total as [r|a]; simpl.
  - eexists. split; [reflexivity|]. split; [apply length_map|].
    intros i Hi. rewrite nth_map_R by exact Hi.
    specialize (Hat i Hi). simpl in Hat. rewrite Hat. reflexivity.
  - assert (Ha : length a = length e) by (apply Hshape; reflexivity).
    rewrite broadcast2_same_length by lia.
    eexists. split; [reflexivity|]. split; [apply map2_length; lia|].
    intros i Hi. rewrite nth_map2_plus by lia.
    specialize (Hat i Hi). simpl in Hat. rewrite Hat. reflexivity.
Qed.

Lemma topography_run_step_spec (self : Topography.t) :
  let e := Topography.elevation self in
  (2 <= length e)%nat ->
  Forall (fun d => length d = length e) (Topography.dtopo self) ->
  exists out,
    Topography.run_step self = Ok out /\
    length (Topography.elevation out) = length e /\
    (forall i, (i < length e - 1)%nat ->
       nth i (Topography.elevation out) 0 =
       nth i e 0 + increments_at (Topography.dtopo self) i) /\
    nth (length e - 1) (Topography.elevation out) 0 =
    nth (length e - 2) e 0 + increments_at (Topography.dtopo self) (length e - 2).
Proof.
  intros e HN Hds.
  destruct (@elevation_plus_increments e (Topography.dtopo self) Hds)
    as (e1 & He1 & Hlen & Hnth).
  unfold Topography.run_step. fold e.
  destruct (Np.sum (Topography.dtopo self)) as [total|err];
    [|discriminate He1].
  cbn [bind] in *. rewrite He1. cbn [bind].
  change (-2)%Z with (- Z.of_nat 2)%Z.
  rewrite (getitem_neg e1 0) by lia. cbn [bind].
  change (-1)%Z with (- Z.of_nat 1)%Z.
  rewrite setitem_neg by lia. cbn [bind].
  eexists. split; [reflexivity|]. simpl. rewrite Hlen.
  split; [|split].
  - rewrite update_length. exact Hlen.
  - intros i Hi. rewrite nth_update_neq by lia. apply Hnth. lia.
  - rewrite nth_update_eq by lia. apply Hnth. lia.
Qed.

(** X1.  On a profile of two or more nodes and increments of the same shape,
    the Topography step adds the increments node by node, and the last node
    receives the new value of the node before it. *)
Theorem topography_run_step_accumulates (self : Topography.t) :
  let e := Topography.elevation self in
  (2 <= length e)%nat ->
  Forall (fun d => length d = length e) (Topography.dtopo self) ->
  exists out,
    Topography.run_step self = Ok out /\
    length (Topography.elevation out) = length e /\
    (forall i, (i < length e - 1)%nat ->
       nth i (Topography.elevation out) 0 =
       nth i e 0 + increments_at (Topography.dtopo self) i) /\
    nth (length e - 1) (Topography.elevation out) 0 =
    nth (length e - 2) (Topography.elevation out) 0.
Proof.
  intros e HN Hds.
  destruct (@topography_run_step_spec self HN Hds)
    as (out & Hrun & Hlen & Hnth & Hlast).
  exists out. split; [exact Hrun|]. split; [exact Hlen|].
  split; [exact Hnth|].
  unfold e in *. rewrite Hlast. symmetry. apply Hnth. lia.
Qed.

Lemma topography_run_step_accumulates_witness :
  exists out,
    Topography.run_step (Topography.mk [5; 7; 9] [[1; 2; 3]; [10; 20; 30]])
    = Ok out /\
    nth 1 (Topography.elevation out) 0 = 7 + (0 + 2 + 20) /\
    nth 2 (Topography.elevation out) 0 = nth 1 (Topography.elevation out) 0.
Proof.
  destruct (@topography_run_step_accumulates
              (Topography.mk [5; 7; 9] [[1; 2; 3]; [10; 20; 30]]))
    as (out & Hrun & _ & Hnth & Hlast).
  - simpl. lia.
  - repeat constructor.
  - exists out. split; [exact Hrun|]. split.
    + apply (Hnth 1%nat). simpl. lia.
    + exact Hlast.
Defined.

(** X2.  Whatever the increments, a Topography step that succeeds leaves a
    profile of two or more nodes whose last two nodes are equal. *)
Theorem topography_run_step_right_boundary (self out : Topography.t) :
  Topography.run_step self = Ok out ->
  let e' := Topography.elevation out in
  (2 <= length e')%nat /\
  nth (length e' - 1) e' 0 = nth (length e' - 2) e' 0.
Proof.
  unfold Topography.run_step.
  destruct (Np.sum (Topography.dtopo self)) as [total|err];
    [|discriminate].
  cbn [bind].
  destruct (Np.radd (Topography.elevation self) total) as [e1|err];
    [|discriminate].
  cbn [bind].
  destruct (Nat.lt_ge_cases (length e1) 2) as [Hshort|Hlong].
  - change (-2)%Z with (- Z.of_nat 2)%Z.
    rewrite getitem_neg_short by exact Hshort. discriminate.
  - change (-2)%Z with (- Z.of_nat 2)%Z.
    rewrite (getitem_neg e1 0) by lia. cbn [bind].
    change (-1)%Z with (- Z.of_nat 1)%Z.
    rewrite setitem_neg by lia. cbn [bind].
    intros [= <-]. simpl. rewrite update_length.
    split; [exact Hlong|].
    rewrite nth_update_eq by lia. rewrite nth_update_neq by lia.
    reflexivity.
Qed.

Lemma topography_run_step_right_boundary_witness :
  exists out,
    Topography.run_step (Topography.mk [5; 7; 9] [[1; 2; 3]]) = Ok out /\
    (2 <= length (Topography.elevation out))%nat /\
    nth (length (Topography.elevation out) - 1) (Topography.elevation out) 0 =
    nth (length (Topography.elevation out) - 2) (Topography.elevation out) 0.
Proof.
  eexists. split; [reflexivity|].
  apply (@topography_run_step_right_boundary
           (Topography.mk [5; 7; 9] [[1; 2; 3]])).
  reflexivity.
Defined.

(** X3.  With two increments in the group, as the notebooks have them
    (erosion and uplift), their order does not matter: both orders give the
    same elevation. *)
Theorem topography_run_step_order_independent (e d1 d2 : Np.array) :
  (2 <= length e)%nat ->
  length d1 = length e ->
  length d2 = length e ->
  exists out out',
    Topography.run_step (Topography.mk e [d1; d2]) = Ok out /\
    Topography.run_step (Topography.mk e [d2; d1]) = Ok out' /\
    Topography.elevation out = Topography.elevation out'.
Proof.
  intros HN H1 H2.
  destruct (@topography_run_step_spec (Topography.mk e [d1; d2]))
    as (out & Hrun & Hlen & Hnth & Hlast);
    [exact HN | repeat constructor; assumption |].
  destruct (@topography_run_step_spec (Topography.mk e [d2; d1]))
    as (out' & Hrun' & Hlen' & Hnth' & Hlast');
    [exact HN | repeat constructor; assumption |].
  simpl in *.
  exists out, out'. split; [exact Hrun|]. split; [exact Hrun'|].
  apply (nth_ext _ _ 0 0); [lia|].
  intros i Hi. rewrite Hlen in Hi.
  destruct (Nat.eq_dec i (length e - 1)) as [->|Hne].
  - rewrite Hlast, Hlast'. unfold increments_at. simpl. ring.
  - rewrite Hnth, Hnth' by lia. unfold increments_at. simpl. ring.
Qed.

Lemma topography_run_step_order_independent_witness :
  exists out out',
    Topography.run_step (Topography.mk [5; 7; 9] [[1; 2; 3]; [10; 20; 30]])
    = Ok out /\
    Topography.run_step (Topography.mk [5; 7; 9] [[10; 20; 30]; [1; 2; 3]])
    = Ok out' /\
    Topography.elevation out = Topography.elevation out'.
Proof.
  apply (@topography_run_step_order_independent
           [5; 7; 9] [1; 2; 3] [10; 20; 30]).
  - simpl. lia.
  - reflexivity.
  - reflexivity.
Defined.

(** X4.  On a profile of fewer than two nodes the Topography step raises
    IndexError: there is no second-to-last node to copy. *)
Theorem topography_run_step_too_short (self : Topography.t) :
  let e := Topography.elevation self in
  (length e < 2)%nat ->
  Forall (fun d => length d = length e) (Topography.dtopo self) ->
  Topography.run_step self = Raise IndexError.
Proof.
  intros e HN Hds.
  destruct (@elevation_plus_increments e (Topography.dtopo self) Hds)
    as (e1 & He1 & Hlen & _).
  unfold Topography.run_step. fold e.
  destruct (Np.sum (Topography.dtopo self)) as [total|err];
    [|discriminate He1].
  cbn [bind] in *. rewrite He1. cbn [bind].
  change (-2)%Z with (- Z.of_nat 2)%Z.
  rewrite getitem_neg_short by lia. reflexivity.
Qed.

Lemma topography_run_step_too_short_witness :
  Topography.run_step (Topography.mk [5] [[1]; [2]]) = Raise IndexError.
Proof.
  apply (@topography_run_step_too_short (Topography.mk [5] [[1]; [2]])).
  - simpl. lia.
  - repeat constructor.
Defined.

(** ** Erosion: the whole increment of a diffusion step *)

Lemma last_nth_R (l : Np.array) :
  last l 0 = nth (length l - 1) l 0.
Proof.
  induction l as [|x [|y l] IH]; try reflexivity.
  change (last (x :: y :: l) 0) with (last (y :: l) 0).
  rewrite IH. simpl. rewrite Nat.sub_0_r. reflexivity.
Qed.

Lemma diffusion_increment_length (dt dx : R) (s kd_var : Np.array) :
  length kd_var = length s -> (2 <= length s)%nat ->
  length (diffusion_increment dt dx s kd_var) = length s.
Proof.
  intros Hkd HN. unfold diffusion_increment.
  rewrite length_app. simpl. rewrite interior_length by exact Hkd. lia.
Qed.

Lemma nth_diffusion_increment (dt dx : R) (s kd_var : Np.array) (i : nat) :
  length kd_var = length s -> (2 <= length s)%nat ->
  nth i (diffusion_increment dt dx s kd_var) 0 =
  if (i =? 0)%nat then 0
  else if (i <? length s - 1)%nat
       then nth (i - 1) (Erosion.interior dt dx s kd_var) 0
       else if (i =? length s - 1)%nat
            then nth (length s - 2) (0 :: Erosion.interior dt dx s kd_var) 0
            else 0.
Proof.
  intros Hkd HN. unfold diffusion_increment.
  assert (Hv := @interior_length dt dx s kd_var Hkd).
  set (v := Erosion.interior dt dx s kd_var) in *.
  destruct (Nat.eqb_spec i 0) as [->|Hi0]; [reflexivity|].
  destruct (Nat.ltb_spec i (length s - 1)) as [Hlt|Hge].
  - rewrite app_nth1 by (simpl; lia).
    destruct i as [|i]; [lia|]. simpl. rewrite Nat.sub_0_r. reflexivity.
  - destruct (Nat.eqb_spec i (length s - 1)) as [->|Hne].
    + rewrite app_nth2 by (simpl; lia).
      replace (length s - 1 - length (0%R :: v))%nat with 0%nat
        by (simpl; lia).
      change (last (0 :: v) 0 = nth (length s - 2) (0 :: v) 0).
      rewrite last_nth_R. f_equal. simpl. lia.
    + apply nth_overflow. rewrite length_app. simpl. lia.
Qed.

Lemma erosion_run_step_frame (self out : Erosion.t) (dt : R) :
  Erosion.run_step self dt = Ok out ->
  Erosion.kd out = Erosion.kd self /\
  Erosion.surface out = Erosion.surface self /\
  Erosion.L out = Erosion.L self /\
  Erosion.dx out = Erosion.dx self.
Proof.
  unfold Erosion.run_step.
  destruct (Np.broadcast_to _ _) as [kd_var|e]; [|discriminate]. cbn [bind].
  destruct (Np.set_slice_1_m1 _ _) as [d1|e]; [|discriminate]. cbn [bind].
  destruct (Np.setitem d1 0 0) as [d2|e]; [|discriminate]. cbn [bind].
  destruct (Np.getitem d2 (-2)) as [v|e]; [|discriminate]. cbn [bind].
  destruct (Np.setitem d2 (-1) v) as [d3|e]; [|discriminate]. cbn [bind].
  intros [= <-]. simpl. auto.
Qed.

(** On two or more nodes the step returns the process with its buffer
    replaced by [diffusion_increment]. *)
Lemma erosion_run_step_closed (self : Erosion.t) (dt : R) (kd_var : Np.array) :
  let s := Erosion.surface self in
  (2 <= length s)%nat ->
  length (Erosion.dtopo self) = length s ->
  Np.broadcast_to (Erosion.kd self) (Z.of_nat (length s)) = Ok kd_var ->
  Erosion.run_step self dt =
  Ok (Erosion.mk (Erosion.kd self) s (Erosion.L self) (Erosion.dx self)
        (diffusion_increment dt (Erosion.dx self) s kd_var)).
Proof.
  intros s HN Hd Hkd.
  destruct (@erosion_run_step_spec self dt kd_var HN Hd Hkd)
    as (out & Hrun & _ & _ & Hlen & H0 & Hlast & Hint).
  destruct (erosion_run_step_frame _ _ Hrun) as (Fkd & Fs & FL & Fdx).
  destruct (broadcast_to_length _ _ Hkd) as [_ Hklen].
  rewrite Nat2Z.id in Hklen.
  rewrite Hrun. f_equal.
  destruct out as [okd os oL odx od]. simpl in *. subst okd os oL odx.
  f_equal. fold s in Hlen, Hlast, Hint.
  apply (nth_ext _ _ 0 0).
  - rewrite diffusion_increment_length by assumption. exact Hlen.
  - intros i Hi. rewrite Hlen in Hi.
    rewrite nth_diffusion_increment by assumption.
    destruct (Nat.eqb_spec i 0) as [->|Hi0]; [exact H0|].
    destruct (Nat.ltb_spec i (length s - 1)) as [Hlt|Hge].
    + apply Hint. lia.
    + destruct (Nat.eqb_spec i (length s - 1)) as [->|Hne]; [|lia].
      rewrite Hlast.
      destruct (Nat.eq_dec (length s - 2) 0) as [Hz|Hnz].
      * rewrite Hz. exact H0.
      * rewrite Hint by lia.
        destruct (length s - 2)%nat as [|m] eqn:Hm; [lia|].
        simpl. rewrite Nat.sub_0_r. reflexivity.
Qed.

(** X5.  A diffusion step overwrites its whole buffer: on two or more nodes
    the outcome does not depend on what [dtopo] held before, only on its
    having one entry per node. *)
Theorem erosion_run_step_overwrites_buffer
  (self : Erosion.t) (d' : Np.array) (dt : R) :
  let s := Erosion.surface self in
  (2 <= length s)%nat ->
  length (Erosion.dtopo self) = length s ->
  length d' = length s ->
  Erosion.run_step
    (Erosion.mk (Erosion.kd self) s (Erosion.L self) (Erosion.dx self) d') dt
  = Erosion.run_step self dt.
Proof.
  intros s HN Hd Hd'.
  destruct (Np.broadcast_to (Erosion.kd self) (Z.of_nat (length s)))
    as [kd_var|e] eqn:Hkd.
  - rewrite (@erosion_run_step_closed self dt kd_var HN Hd Hkd).
    rewrite (@erosion_run_step_closed
               (Erosion.mk (Erosion.kd self) s (Erosion.L self)
                  (Erosion.dx self) d') dt kd_var); try assumption.
    reflexivity.
  - unfold Erosion.run_step. simpl. fold s. rewrite Hkd. reflexivity.
Qed.

Lemma erosion_run_step_overwrites_buffer_witness :
  Erosion.run_step (Erosion.mk (Np.Scalar 1) [0; 1; 4; 9] 3 1 [7; 7; 7; 7]) 2
  = Erosion.run_step (Erosion.mk (Np.Scalar 1) [0; 1; 4; 9] 3 1 [0; 0; 0; 0]) 2.
Proof.
  apply (@erosion_run_step_overwrites_buffer
           (Erosion.mk (Np.Scalar 1) [0; 1; 4; 9] 3 1 [0; 0; 0; 0])
           [7; 7; 7; 7] 2).
  - simpl. lia.
  - reflexivity.
  - reflexivity.
Defined.

(** X6.  On a grid of exactly two nodes there is no interior node and the
    diffusion increment is [[0, 0]] whatever the elevations, the diffusivity
    and the step. *)
Theorem erosion_run_step_two_nodes
  (self : Erosion.t) (dt : R) (kd_var : Np.array) :
  length (Erosion.surface self) = 2%nat ->
  length (Erosion.dtopo self) = 2%nat ->
  Np.broadcast_to (Erosion.kd self) 2 = Ok kd_var ->
  exists out,
    Erosion.run_step self dt = Ok out /\ Erosion.dtopo out = [0; 0].
Proof.
  intros Hs Hd Hkd.
  rewrite (@erosion_run_step_closed self dt kd_var).
  - eexists. split; [reflexivity|]. simpl.
    destruct (broadcast_to_length _ _ Hkd) as [_ Hklen].
    assert (Hv : length (Erosion.interior dt (Erosion.dx self)
                           (Erosion.surface self) kd_var) = 0%nat).
    { rewrite interior_length; [lia|]. rewrite Hklen, Hs. reflexivity. }
    apply length_zero_iff_nil in Hv.
    unfold diffusion_increment. rewrite Hv. reflexivity.
  - lia.
  - lia.
  - rewrite Hs. exact Hkd.
Qed.

Lemma erosion_run_step_two_nodes_witness :
  exists out,
    Erosion.run_step (Erosion.mk (Np.PerNode [3; 5]) [10; 20] 1 1 [7; 7]) 2
    = Ok out /\ Erosion.dtopo out = [0; 0].
Proof.
  apply (@erosion_run_step_two_nodes
           (Erosion.mk (Np.PerNode [3; 5]) [10; 20] 1 1 [7; 7]) 2 [3; 5]);
    reflexivity.
Defined.

(** X7.  On a surface of fewer than two nodes the diffusion step raises
    IndexError (at [dtopo[0]] on the empty grid, at [dtopo[-2]] on a single
    node), even though its diffusivity broadcasts. *)
Theorem erosion_run_step_too_short
  (self : Erosion.t) (dt : R) (kd_var : Np.array) :
  let s := Erosion.surface self in
  (length s < 2)%nat ->
  length (Erosion.dtopo self) = length s ->
  Np.broadcast_to (Erosion.kd self) (Z.of_nat (length s)) = Ok kd_var ->
  Erosion.run_step self dt = Raise IndexError.
Proof.
  intros s HN Hd Hkd.
  destruct (broadcast_to_length _ _ Hkd) as [_ Hklen].
  rewrite Nat2Z.id in Hklen.
  assert (Hv : Erosion.interior dt (Erosion.dx self) s kd_var = []).
  { apply length_zero_iff_nil. rewrite interior_length by exact Hklen. lia. }
  unfold Erosion.run_step. fold s. rewrite Hkd. cbn [bind]. rewrite Hv.
  destruct (Erosion.dtopo self) as [|x [|y d]]; simpl in Hd.
  - reflexivity.
  - reflexivity.
  - lia.
Qed.

Lemma erosion_run_step_too_short_witness :
  Erosion.run_step (Erosion.mk (Np.Scalar 1) [5] 1 1 [0]) 2 = Raise IndexError.
Proof.
  apply (@erosion_run_step_too_short
           (Erosion.mk (Np.Scalar 1) [5] 1 1 [0]) 2 [1]).
  - simpl. lia.
  - reflexivity.
  - reflexivity.
Defined.

(** ** Uplift on a grid without nodes *)

(** X11.  The Uplift step never succeeds on a grid without nodes: a negative
    [nx] raises ValueError (the broadcast), and [nx = 0] raises too, since
    [dtopo[0]] is out of range. *)
Theorem uplift_run_step_no_nodes (self : Uplift.t) (dt : R) :
  ((Uplift.nx self < 0)%Z -> Uplift.run_step self dt = Raise ValueError) /\
  (Uplift.nx self = 0%Z -> exists e, Uplift.run_step self dt = Raise e).
Proof.
  split.
  - intros Hnx. unfold Uplift.run_step, Np.broadcast_to.
    destruct (Z.ltb_spec (Uplift.nx self) 0) as [_|Hge]; [reflexivity | lia].
  - intros Hnx. unfold Uplift.run_step.
    destruct (Np.broadcast_to (Uplift.rate self) (Uplift.nx self))
      as [u|e] eqn:Hu.
    + destruct (broadcast_to_length _ _ Hu) as [_ Hlen].
      rewrite Hnx in Hlen. apply length_zero_iff_nil in Hlen. subst u.
      exists IndexError. reflexivity.
    + exists e. reflexivity.
Qed.

Lemma uplift_run_step_no_nodes_witness :
  Uplift.run_step (Uplift.mk (Np.Scalar 3) [] (-1)) 2 = Raise ValueError.
Proof.
  apply (proj1 (uplift_run_step_no_nodes (Uplift.mk (Np.Scalar 3) [] (-1)) 2)).
  simpl. lia.
Defined.

(** ** [integrate] on every array and on non-negative ones *)

Lemma sum_from_nonneg (x : Np.array) (i : nat) :
  (forall j, (j < length x)%nat -> 0 <= nth j x 0) -> 0 <= sum_from i x.
Proof.
  revert i. induction x as [|v x IH]; intros i Hx.
  - unfold sum_from. rewrite skipn_nil. simpl. lra.
  - assert (Hx' : forall j, (j < length x)%nat -> 0 <= nth j x 0).
    { intros j Hj. apply (Hx (S j)). simpl. lia. }
    destruct i as [|i].
    + unfold sum_from. simpl.
      assert (H0 := Hx 0%nat). simpl in H0.
      assert (Hs := IH 0%nat Hx'). unfold sum_from in Hs. simpl in Hs.
      assert (0 <= v) by (apply H0; lia). lra.
    + apply (IH i Hx').
Qed.

(** X12.  [integrate] never raises and keeps the length, on every array:
    the last node is left as it is and every other node is its input plus
    the result at its right neighbour.  On a non-negative array the result
    is at least the input at every node and does not increase from a node to
    its right neighbour. *)
Theorem integrate_recurrence (x : Np.array) :
  exists integ,
    integrate x = Ok integ /\
    length integ = length x /\
    ((0 < length x)%nat ->
     nth (length x - 1) integ 0 = nth (length x - 1) x 0) /\
    (forall i, (S i < length x)%nat ->
       nth i integ 0 = nth i x 0 + nth (S i) integ 0) /\
    ((forall i, (i < length x)%nat -> 0 <= nth i x 0) ->
     (forall i, (i < length x)%nat -> nth i x 0 <= nth i integ 0) /\
     (forall i, (S i < length x)%nat -> nth (S i) integ 0 <= nth i integ 0)).
Proof.
  destruct (integrate_spec x) as (integ & Hrun & Hlen & Hsum).
  exists integ. split; [exact Hrun|]. split; [exact Hlen|].
  split; [|split].
  - intros HN. rewrite Hsum by lia. rewrite sum_from_nth by lia.
    rewrite (@sum_from_end x (S (length x - 1))) by lia. lra.
  - intros i Hi. rewrite !Hsum by lia. apply sum_from_nth. lia.
  - intros Hx. split.
    + intros i Hi. rewrite Hsum by exact Hi.
      rewrite sum_from_nth by exact Hi.
      assert (Hs := @sum_from_nonneg x (S i) Hx). lra.
    + intros i Hi. rewrite !Hsum by lia.
      rewrite (@sum_from_nth x i) by lia.
      assert (H0 := Hx i). assert (0 <= nth i x 0) by (apply H0; lia). lra.
Qed.

Lemma integrate_recurrence_witness :
  exists integ,
    integrate [3; 0; 2] = Ok integ /\
    length integ = 3%nat /\
    nth 2 integ 0 = 2 /\
    (forall i, (i < 3)%nat -> nth i [3; 0; 2] 0 <= nth i integ 0) /\
    (forall i, (S i < 3)%nat -> nth (S i) integ 0 <= nth i integ 0).
Proof.
  destruct (integrate_recurrence [3; 0; 2])
    as (integ & Hrun & Hlen & Hlast & _ & Hmono).
  exists integ. split; [exact Hrun|]. split; [exact Hlen|].
  split; [apply Hlast; simpl; lia|].
  apply Hmono.
  intros i Hi. destruct i as [|[|[|i]]]; simpl in *; try lra; lia.
Defined.

(** ** One step of the three processes together *)

Lemma uplift_run_step_inv (su su' : Uplift.t) (dt : R) :
  Uplift.run_step su dt = Ok su' ->
  length (Uplift.dtopo su') = Z.to_nat (Uplift.nx su) /\
  nth 0 (Uplift.dtopo su') 0 = 0.
Proof.
  unfold Uplift.run_step.
  destruct (Np.broadcast_to (Uplift.rate su) (Uplift.nx su)) as [u|e] eqn:Hu;
    [|discriminate].
  destruct (broadcast_to_length _ _ Hu) as [_ Hlen]. cbn [bind].
  destruct u as [|x u]; [discriminate|].
  simpl. intros [= <-]. simpl. rewrite length_map.
  split; [exact Hlen | reflexivity].
Qed.

Lemma erosion_run_step_inv (se se' : Erosion.t) (dt : R) :
  (2 <= length (Erosion.surface se))%nat ->
  length (Erosion.dtopo se) = length (Erosion.surface se) ->
  Erosion.run_step se dt = Ok se' ->
  length (Erosion.dtopo se') = length (Erosion.surface se) /\
  nth 0 (Erosion.dtopo se') 0 = 0.
Proof.
  intros HN Hd Hrun.
  destruct (Np.broadcast_to (Erosion.kd se)
              (Z.of_nat (length (Erosion.surface se)))) as [kd_var|e] eqn:Hkd.
  - destruct (@erosion_run_step_spec se dt kd_var HN Hd Hkd)
      as (out & Hrun' & _ & _ & Hlen & H0 & _).
    rewrite Hrun in Hrun'. injection Hrun' as <-. auto.
  - unfold Erosion.run_step in Hrun. rewrite Hkd in Hrun. discriminate.
Qed.

(** X14.  The left boundary is fixed: when the increment group holds the
    results of a diffusion step and of an uplift step on the same grid of two
    or more nodes, the Topography step leaves node 0 as it was and adds both
    increments at every other node but the last. *)
Theorem step_keeps_left_boundary
  (se se' : Erosion.t) (su su' : Uplift.t) (dt : R) :
  let e := Erosion.surface se in
  (2 <= length e)%nat ->
  length (Erosion.dtopo se) = length e ->
  Uplift.nx su = Z.of_nat (length e) ->
  Erosion.run_step se dt = Ok se' ->
  Uplift.run_step su dt = Ok su' ->
  exists out,
    Topography.run_step
      (Topography.mk e [Erosion.dtopo se'; Uplift.dtopo su']) = Ok out /\
    length (Topography.elevation out) = length e /\
    nth 0 (Topography.elevation out) 0 = nth 0 e 0 /\
    forall i, (i < length e - 1)%nat ->
      nth i (Topography.elevation out) 0 =
      nth i e 0 + (nth i (Erosion.dtopo se') 0 + nth i (Uplift.dtopo su') 0).
Proof.
  intros e HN Hd Hnx Hse Hsu.
  destruct (@erosion_run_step_inv se se' dt HN Hd Hse) as [Hle He0].
  destruct (@uplift_run_step_inv su su' dt Hsu) as [Hlu Hu0].
  rewrite Hnx, Nat2Z.id in Hlu. fold e in Hle, Hlu.
  destruct (@topography_run_step_spec
              (Topography.mk e [Erosion.dtopo se'; Uplift.dtopo su']))
    as (out & Hrun & Hlen & Hnth & _).
  - exact HN.
  - simpl. repeat constructor; assumption.
  - simpl in *. exists out. split; [exact Hrun|]. split; [exact Hlen|].
    split.
    + rewrite Hnth by lia. unfold increments_at. simpl.
      rewrite He0, Hu0. ring.
    + intros i Hi. rewrite Hnth by exact Hi.
      unfold increments_at. simpl. ring.
Qed.

Lemma step_keeps_left_boundary_witness :
  exists out,
    Topography.run_step
      (Topography.mk [0; 1; 4; 9] [[0; 4; 4; 4]; [0; 6; 6; 6]]) = Ok out /\
    length (Topography.elevation out) = 4%nat /\
    nth 0 (Topography.elevation out) 0 = 0.
Proof.
  destruct (@step_keeps_left_boundary
              (Erosion.mk (Np.Scalar 1) [0; 1; 4; 9] 3 1 [0; 0; 0; 0])
              (Erosion.mk (Np.Scalar 1) [0; 1; 4; 9] 3 1 [0; 4; 4; 4])
              (Uplift.mk (Np.Scalar 3) [] 4)
              (Uplift.mk (Np.Scalar 3) [0; 6; 6; 6] 4) 2)
    as (out & Hrun & Hlen & H0 & _).
  - simpl. lia.
  - reflexivity.
  - reflexivity.
  - unfold Erosion.run_step, Erosion.interior. simpl.
    repeat f_equal; field.
  - unfold Uplift.run_step. simpl. repeat f_equal; ring.
  - exists out. simpl in *. auto.
Defined.

(** ** [computeHydro]: NaN and short inputs *)

Lemma water_table_nan_step (B z accum : Np.array) (dx K : R) (j : nat) :
  water_table B z accum dx K j = Np.NaN ->
  water_table B z accum dx K (S j) = Np.NaN.
Proof.
  intros Hj. simpl. rewrite Hj. reflexivity.
Qed.

Lemma water_table_nan_from (B z accum : Np.array) (dx K : R) (i j : nat) :
  (i <= j)%nat ->
  water_table B z accum dx K i = Np.NaN ->
  water_table B z accum dx K j = Np.NaN.
Proof.
  intros Hij Hi. induction Hij as [|j _ IH]; [exact Hi|].
  apply water_table_nan_step. exact IH.
Qed.

(** X15.  On arrays of one length the water table starts at the surface,
    [H[0] = z[0]], and NaN is absorbing: once a node holds NaN, every node to
    its right holds NaN. *)
Theorem computeHydro_nan_propagates (B z accum : Np.array) (dx K : R) :
  length B = length z -> length accum = length z ->
  exists H,
    computeHydro B z accum dx K = Ok H /\
    ((0 < length z)%nat -> nth 0 H Np.NaN = Np.Fin (nth 0 z 0)) /\
    forall i j, (i <= j < length z)%nat ->
      nth i H Np.NaN = Np.NaN -> nth j H Np.NaN = Np.NaN.
Proof.
  intros HB Ha.
  destruct (@computeHydro_spec B z accum dx K HB Ha) as (H & Hrun & Hlen & Hnth).
  exists H. split; [exact Hrun|]. split.
  - intros H0. rewrite Hnth by exact H0. reflexivity.
  - intros i j Hij Hi. rewrite Hnth in Hi by lia. rewrite Hnth by lia.
    apply (@water_table_nan_from B z accum dx K i j); [lia | exact Hi].
Qed.

Lemma computeHydro_nan_propagates_witness :
  exists H,
    computeHydro [1; 1; 1] [0; 0; 0] [0; 1; 0] 1 (-1) = Ok H /\
    ((0 < 3)%nat -> nth 0 H Np.NaN = Np.Fin 0) /\
    forall i j, (i <= j < 3)%nat ->
      nth i H Np.NaN = Np.NaN -> nth j H Np.NaN = Np.NaN.
Proof.
  apply (@computeHydro_nan_propagates [1; 1; 1] [0; 0; 0] [0; 1; 0] 1 (-1));
    reflexivity.
Defined.

Section ItemOutcome.
Context {A : Type}.
Implicit Types (a : list A) (v : A).

Lemma item_outcome a (i : nat) :
  (exists v, Np.item a i = Ok v) \/ Np.item a i = Raise IndexError.
Proof.
  unfold Np.item. destruct (nth_error a i) as [v|]; [left; eauto | right; auto].
Qed.

Lemma item_out_of_range a (i : nat) :
  (length a <= i)%nat -> Np.item a i = Raise IndexError.
Proof.
  intros Hi. unfold Np.item.
  apply nth_error_None in Hi. rewrite Hi. reflexivity.
Qed.

Lemma set_item_outcome a (i : nat) v :
  Np.set_item a i v = Ok (Np.update a i v) \/
  Np.set_item a i v = Raise IndexError.
Proof.
  unfold Np.set_item. destruct (i <? length a)%nat; auto.
Qed.

End ItemOutcome.

(** The loop body fails with IndexError or not at all. *)
Lemma hydro_body_outcome (B z accum : Np.array) (dx K : R)
  (i : nat) (H : list Np.float64) :
  (exists H', hydro_body B z accum dx K i H = Ok H') \/
  hydro_body B z accum dx K i H = Raise IndexError.
Proof.
  unfold hydro_body.
  destruct (item_outcome z i) as [[zi ->]| ->]; [|right; reflexivity].
  cbn [bind].
  destruct (item_outcome z (i - 1)) as [[zp ->]| ->]; [|right; reflexivity].
  cbn [bind].
  destruct (item_outcome B i) as [[Bi ->]| ->]; [|right; reflexivity].
  cbn [bind].
  destruct (item_outcome B (i - 1)) as [[Bp ->]| ->]; [|right; reflexivity].
  cbn [bind].
  destruct (item_outcome H (i - 1)) as [[Hp ->]| ->]; [|right; reflexivity].
  cbn [bind].
  destruct (item_outcome accum i) as [[ai ->]| ->]; [|right; reflexivity].
  cbn [bind].
  match goal with
  | |- context [Np.set_item H i ?v] =>
      destruct (set_item_outcome H i v) as [-> | ->]; [|right; reflexivity]
  end.
  cbn [bind].
  match goal with
  | |- context [Np.item ?a i] =>
      destruct (item_outcome a i) as [[h1 ->]| ->]; [|right; reflexivity]
  end.
  cbn [bind].
  destruct (Np.f_gt h1 (Np.Fin zi)).
  - match goal with
    | |- context [Np.set_item ?a i ?v] =>
        destruct (set_item_outcome a i v) as [-> | ->]; [|right; reflexivity]
    end.
    cbn [bind].
    match goal with
    | |- context [Np.item ?a i] =>
        destruct (item_outcome a i) as [[h2 ->]| ->]; [|right; reflexivity]
    end.
    cbn [bind].
    destruct (Np.f_lt h2 _); [|left; eauto].
    match goal with
    | |- context [Np.set_item ?a i ?v] =>
        destruct (set_item_outcome a i v) as [-> | ->]; [left; eauto | right; auto]
    end.
  - cbn [bind].
    match goal with
    | |- context [Np.item ?a i] =>
        destruct (item_outcome a i) as [[h2 ->]| ->]; [|right; reflexivity]
    end.
    cbn [bind].
    destruct (Np.f_lt h2 _); [|left; eauto].
    match goal with
    | |- context [Np.set_item ?a i ?v] =>
        destruct (set_item_outcome a i v) as [-> | ->]; [left; eauto | right; auto]
    end.
Qed.

(** At a node beyond the end of [B] or of [accum] the body raises. *)
Lemma hydro_body_short (B z accum : Np.array) (dx K : R)
  (i : nat) (H : list Np.float64) :
  (length B <= i)%nat \/ (length accum <= i)%nat ->
  hydro_body B z accum dx K i H = Raise IndexError.
Proof.
  intros Hshort. unfold hydro_body.
  destruct (item_outcome z i) as [[zi ->]| ->]; [|reflexivity]. cbn [bind].
  destruct (item_outcome z (i - 1)) as [[zp ->]| ->]; [|reflexivity].
  cbn [bind].
  destruct (item_outcome B i) as [[Bi HBi]| ->]; [|reflexivity].
  rewrite HBi. cbn [bind].
  destruct (item_outcome B (i - 1)) as [[Bp ->]| ->]; [|reflexivity].
  cbn [bind].
  destruct (item_outcome H (i - 1)) as [[Hp ->]| ->]; [|reflexivity].
  cbn [bind].
  destruct Hshort as [HB|Ha].
  - rewrite item_out_of_range in HBi by exact HB. discriminate.
  - rewrite item_out_of_range by exact Ha. reflexivity.
Qed.

(** A loop whose body fails with IndexError or not at all, and fails at one
    of its indices whatever the state, raises IndexError. *)
Lemma for_in_raises {S : Type} (body : nat -> S -> result S)
  (xs : list nat) (x : nat) (s : S) :
  (forall i t, (exists t', body i t = Ok t') \/ body i t = Raise IndexError) ->
  In x xs ->
  (forall t, body x t = Raise IndexError) ->
  for_in xs body s = Raise IndexError.
Proof.
  intros Hout Hin Hx. revert s.
  induction xs as [|y xs IH]; intros s; [contradiction|].
  simpl. destruct (Hout y s) as [[t Ht]|Hr].
  - rewrite Ht. cbn [bind].
    destruct Hin as [->|Hin].
    + rewrite Hx in Ht. discriminate.
    + apply IH. exact Hin.
  - rewrite Hr. reflexivity.
Qed.

(** X17.  When the surface has two or more nodes and [B] or [accum] is
    shorter than it, [computeHydro] raises IndexError; no partial result is
    returned. *)
Theorem computeHydro_short_input (B z accum : Np.array) (dx K : R) :
  (2 <= length z)%nat ->
  (length B < length z)%nat \/ (length accum < length z)%nat ->
  computeHydro B z accum dx K = Raise IndexError.
Proof.
  intros HN Hshort. unfold computeHydro. rewrite length_map.
  apply (@for_in_raises _ (hydro_body B z accum dx K) _ (length z - 1)%nat).
  - intros i t. apply hydro_body_outcome.
  - unfold range. apply in_seq. lia.
  - intros t. apply hydro_body_short. lia.
Qed.

Lemma computeHydro_short_input_witness :
  computeHydro [1; 1] [0; 0; 0] [0; 0; 0] 1 1 = Raise IndexError.
Proof.
  apply (@computeHydro_short_input [1; 1] [0; 0; 0] [0; 0; 0] 1 1).
  - simpl. lia.
  - left. simpl. lia.
Defined.

(** X18.  Whatever the infiltration and the conductivity, a node of the
    result is NaN or lies between [z - B] and [z], as soon as the regolith
    thickness is non-negative. *)
Theorem computeHydro_finite_nodes_bounded (B z accum : Np.array) (dx K : R) :
  length B = length z -> length accum = length z ->
  (forall i, (i < length z)%nat -> 0 <= nth i B 0) ->
  exists H,
    computeHydro B z accum dx K = Ok H /\
    forall i h, (i < length z)%nat ->
      nth i H Np.NaN = Np.Fin h ->
      nth i z 0 - nth i B 0 <= h <= nth i z 0.
Proof.
  intros HB Ha HBpos.
  destruct (@computeHydro_spec B z accum dx K HB Ha) as (H & Hrun & Hlen & Hnth).
  exists H. split; [exact Hrun|].
  intros i h Hi Hh. rewrite Hnth in Hh by exact Hi.
  specialize (HBpos i Hi).
  destruct i as [|j].
  - simpl in Hh. injection Hh as <-. lra.
  - simpl in Hh. unfold hydro_node in Hh.
    destruct (hydro_root _ _ _ _ _ _ _ _) as [r|].
    + destruct (@clamp_bounds (nth (S j) z 0) (nth (S j) B 0) r HBpos)
        as (h' & Hc & Hb).
      rewrite Hc in Hh. injection Hh as <-. exact Hb.
    + discriminate Hh.
Qed.

Lemma computeHydro_finite_nodes_bounded_witness :
  exists H,
    computeHydro [1; 1] [0; 0] [0; 1] 1 (-1) = Ok H /\
    forall i h, (i < 2)%nat ->
      nth i H Np.NaN = Np.Fin h ->
      nth i [0; 0] 0 - nth i [1; 1] 0 <= h <= nth i [0; 0] 0.
Proof.
  apply (@computeHydro_finite_nodes_bounded [1; 1] [0; 0] [0; 1] 1 (-1));
    try reflexivity.
  intros i Hi. destruct i as [|[|i]]; simpl in *; try lra; lia.
Defined.

